(** * Neo4jLiaison: a model of [src/neo4j_liaison.py]

    The class [Neo4jLiaison] wraps the Neo4j Python driver.  Every method
    opens or reuses a session, builds a Cypher string, hands it to the
    driver and reshapes the records that come back.

    Definitions:
    - [Py]: the Python values and builtins the source relies on
      (insertion-ordered dictionaries, [%]-formatting, [str.join],
      list indexing);
    - [Neo4j]: the objects of the driver the source touches ([Node],
      [Record], [Result]) with the methods it calls on them;
    - [Cypher]: the meaning, on a property graph, of the query shapes the
      class emits;
    - [Liaison]: the class itself, method by method, in a state and
      exception monad over an arbitrary driver backend, with a log of the
      calls made on the driver;
    - [MemDriver]: an in-memory backend that reads the emitted queries;
    - [Spec]: the vocabulary of the properties.

    Facts and properties: [PyFacts], [Neo4jFacts], [LiaisonFacts],
    [Properties]; [Examples] runs the properties on [MemDriver].

    The driver and the database are not part of the class.  A property
    that speaks of the content of the database is stated for a server
    that reads the query text as the reader of [MemDriver] does ([Reader],
    [ReaderFacts], [Refined]); everything the class does around the
    answer is computed by the model.

    The [print] calls of the source only write to standard output and are
    left out. *)

From Stdlib Require Import String Ascii List ZArith Bool Lia.
Import ListNotations.

Local Open Scope list_scope.
Local Open Scope string_scope.

(* ================================================================== *)
(** ** Python values and builtins *)
(* ================================================================== *)

Module Py.

(** Exceptions, by class, each with its message.  [DriverError] stands
    for any exception raised inside the neo4j package. *)
Inductive Exn : Type :=
| Exception (msg : string)
| IndexError (msg : string)
| KeyError (msg : string)
| TypeError (msg : string)
| ValueError (msg : string)
| AttributeError (msg : string)
| AssertionError (msg : string)
| DriverError (msg : string).

(** [str(ex)] *)
Definition str_exn (e : Exn) : string :=
  match e with
  | Exception m | IndexError m | KeyError m | TypeError m
  | ValueError m | AttributeError m | AssertionError m | DriverError m => m
  end.

(** The outcome of a fallible pure computation. *)
Definition result (A : Type) : Type := (Exn + A)%type.

(** Scalars that travel as query parameters and node properties:
    [None], [int] and [str]. *)
Inductive Atom : Type :=
| ANone
| AInt (z : Z)
| AStr (s : string).

Definition atom_eqb (a b : Atom) : bool :=
  match a, b with
  | ANone, ANone => true
  | AInt x, AInt y => Z.eqb x y
  | AStr x, AStr y => String.eqb x y
  | _, _ => false
  end.

(** *** Dictionaries

    A [dict] with string keys, in insertion order.  A well-formed
    dictionary holds each key once ([wf]). *)
Definition Dict (V : Type) : Type := list (string * V).

Definition keys {V} (d : Dict V) : list string := map fst d.
Definition values {V} (d : Dict V) : list V := map snd d.
Definition wf {V} (d : Dict V) : Prop := NoDup (keys d).

(** The decidable form of [wf]. *)
Fixpoint distinct (ks : list string) : bool :=
  match ks with
  | [] => true
  | k :: ks' => negb (existsb (String.eqb k) ks') && distinct ks'
  end.

Definition wfb {V} (d : Dict V) : bool := distinct (keys d).

Fixpoint dict_get {V} (k : string) (d : Dict V) : option V :=
  match d with
  | [] => None
  | (k', v) :: d' => if String.eqb k k' then Some v else dict_get k d'
  end.

(** [d[k] = v]: an existing key keeps its position, a new key goes last. *)
Fixpoint dict_set {V} (k : string) (v : V) (d : Dict V) : Dict V :=
  match d with
  | [] => [(k, v)]
  | (k', v') :: d' =>
      if String.eqb k k' then (k', v) :: d' else (k', v') :: dict_set k v d'
  end.

Fixpoint dict_del {V} (k : string) (d : Dict V) : Dict V :=
  match d with
  | [] => []
  | (k', v') :: d' =>
      if String.eqb k k' then d' else (k', v') :: dict_del k d'
  end.

(** [dict(pairs)] for an iterable of key-value pairs. *)
Definition dict_of_items {V} (items : list (string * V)) : Dict V :=
  fold_left (fun d kv => dict_set (fst kv) (snd kv) d) items [].

(** [lst[i]] for a non-negative index. *)
Definition list_getitem {A} (l : list A) (i : nat) : result A :=
  match nth_error l i with
  | Some x => inr x
  | None => inl (IndexError "list index out of range")
  end.

(** [sep.join(parts)] *)
Fixpoint join (sep : string) (parts : list string) : string :=
  match parts with
  | [] => ""
  | [p] => p
  | p :: ps => p ++ sep ++ join sep ps
  end.

(** [template % args] for string arguments: [%s] takes the next argument,
    [%%] is a percent sign; too few or too many arguments raise
    [TypeError].  The source uses no other conversion. *)
Fixpoint pct_format (template : string) (args : list string) : result string :=
  match template with
  | EmptyString =>
      match args with
      | [] => inr ""
      | _ :: _ =>
          inl (TypeError "not all arguments converted during string formatting")
      end
  | String c rest =>
      if Ascii.eqb c "%" then
        match rest with
        | EmptyString => inl (ValueError "incomplete format")
        | String conv rest' =>
            if Ascii.eqb conv "s" then
              match args with
              | [] => inl (TypeError "not enough arguments for format string")
              | a :: args' =>
                  match pct_format rest' args' with
                  | inr s => inr (a ++ s)
                  | inl e => inl e
                  end
              end
            else if Ascii.eqb conv "%" then
              match pct_format rest' args with
              | inr s => inr (String "%" s)
              | inl e => inl e
              end
            else inl (ValueError "unsupported format character")
        end
      else
        match pct_format rest args with
        | inr s => inr (String c s)
        | inl e => inl e
        end
  end.

End Py.

(* ================================================================== *)
(** ** The driver's objects *)
(* ================================================================== *)

Module Neo4j.
Import Py.

(** [neo4j.graph.Node]: an identity, a set of labels and a dictionary of
    properties. *)
Record Node : Type := mkNode {
  node_identity : Z;
  node_labels : list string;
  node_properties : Dict Atom
}.

(** A value held by a field of a record. *)
Inductive Value : Type :=
| VAtom (a : Atom)
| VNode (n : Node).

Definition VNone : Value := VAtom ANone.

(** [neo4j.Record]: an ordered collection of key-value pairs; a tuple of
    the values that also knows its keys. *)
Definition DbRecord : Type := list (string * Value).

Definition record_keys (r : DbRecord) : list string := map fst r.

(** [tuple(record)]: the values, in field order. *)
Definition record_tuple (r : DbRecord) : list Value := map snd r.

(** [Record.index(key)] for a string key: the first position of the key,
    [KeyError] when absent. *)
Fixpoint index_of (k : string) (ks : list string) : option nat :=
  match ks with
  | [] => None
  | k' :: ks' =>
      if String.eqb k k' then Some 0
      else option_map S (index_of k ks')
  end.

Definition record_index_str (r : DbRecord) (k : string) : result nat :=
  match index_of k (record_keys r) with
  | Some i => inr i
  | None => inl (KeyError k)
  end.

(** [Record.index(key)] for an integer key. *)
Definition record_index_int (r : DbRecord) (i : nat) : result nat :=
  if Nat.ltb i (List.length r) then inr i else inl (IndexError "").

(** [record[i]]: [Record.__getitem__] turns the [IndexError] of
    [index] into [None]. *)
Definition record_getitem_int (r : DbRecord) (i : nat) : Value :=
  match record_index_int r i with
  | inr j => nth j (record_tuple r) VNone
  | inl _ => VNone
  end.

(** [record[key]] for a string key: the [KeyError] of [index] escapes. *)
Definition record_getitem_str (r : DbRecord) (k : string) : result Value :=
  match record_index_str r k with
  | inr j => inr (nth j (record_tuple r) VNone)
  | inl e => inl e
  end.

(** [Record.value(key, default)] for a string key. *)
Definition record_value (r : DbRecord) (k : string) (default : Value) : Value :=
  match record_index_str r k with
  | inr j => nth j (record_tuple r) VNone
  | inl _ => default
  end.

(** [dict(record)]: a record is a mapping, so [dict] walks [keys()] and
    reads [record[key]] for each. *)
Definition dict_of_record (r : DbRecord) : Dict Value :=
  fold_left
    (fun d k => dict_set k (record_value r k VNone) d)
    (record_keys r) [].

(** [node.items()] *)
Definition node_items (n : Node) : list (string * Atom) := node_properties n.

(** [value.items()]: only a node has the method. *)
Definition value_items (v : Value) : result (list (string * Atom)) :=
  match v with
  | VNode n => inr (node_items n)
  | VAtom _ => inl (AttributeError "object has no attribute 'items'")
  end.

(** [neo4j.Result], as the list of the records not yet consumed. *)
Definition Result : Type := list DbRecord.

(** [Result.single()]: [None] on an empty result, else the first record
    (with a warning when there are more). *)
Definition result_single (res : Result) : option DbRecord :=
  match res with
  | [] => None
  | r :: _ => Some r
  end.

(** [Result.value(key)] for a string key: one value per record, [None]
    where the record has no such field. *)
Definition result_value (res : Result) (k : string) : list Value :=
  map (fun r => record_value r k VNone) res.

(** [Result.value()]: the value at position 0 of each record. *)
Definition result_value0 (res : Result) : list Value :=
  map (fun r => record_getitem_int r 0) res.

(** What [Result.data()] makes of a value: a node becomes the
    dictionary of its properties. *)
Inductive Datum : Type :=
| DAtom (a : Atom)
| DDict (d : Dict Atom).

Definition datum_of_value (v : Value) : Datum :=
  match v with
  | VAtom a => DAtom a
  | VNode n => DDict (dict_of_items (node_items n))
  end.

(** [Result.data()] *)
Definition result_data (res : Result) : list (Dict Datum) :=
  map (fun r => dict_of_items (map (fun kv => (fst kv, datum_of_value (snd kv))) r))
      res.

(** Handles of the driver and session objects. *)
Definition DriverObj : Type := nat.
Definition Session : Type := nat.

End Neo4j.

(* ================================================================== *)
(** ** The meaning of the emitted query shapes on a property graph *)
(* ================================================================== *)

Module Cypher.
Import Py Neo4j.

Definition Graph : Type := list Node.

(** [(n:label)] *)
Definition has_label (label : string) (n : Node) : bool :=
  existsb (String.eqb label) (node_labels n).

(** [n.k = v]: a comparison with [null], or of a missing property, is
    not true. *)
Definition prop_is (k : string) (v : Atom) (n : Node) : bool :=
  match v, dict_get k (node_properties n) with
  | ANone, _ => false
  | _, None => false
  | _, Some a => atom_eqb a v
  end.

(** [MATCH (n:label {id:$id})] and [MATCH (n:label) WHERE n.id = $node_id] *)
Definition label_and_id (label : string) (v : Atom) (n : Node) : bool :=
  has_label label n && prop_is "id" v n.

(** [RETURN n]: one record per matched node, with the single field [n]. *)
Definition return_nodes (field : string) (ns : list Node) : Result :=
  map (fun n => [(field, VNode n)]) ns.

(** The integer [id] properties of a list of nodes. *)
Definition int_ids (ns : list Node) : list Z :=
  flat_map
    (fun n => match dict_get "id" (node_properties n) with
              | Some (AInt z) => [z]
              | _ => []
              end) ns.

(** [1+max(n.id)] over integer ids: [null] when there is none. *)
Definition one_plus_max (ids : list Z) : Atom :=
  match ids with
  | [] => ANone
  | z :: zs => AInt (1 + fold_left Z.max zs z)
  end.

(** [RETURN 1+max(n.id) AS max_value]: an aggregate always yields one
    record. *)
Definition return_next_id (ns : list Node) : Result :=
  [[("max_value", VAtom (one_plus_max (int_ids ns)))]].

(** [SET n.k = v]: setting [null] removes the property. *)
Definition set_property (k : string) (v : Atom) (n : Node) : Node :=
  {| node_identity := node_identity n;
     node_labels := node_labels n;
     node_properties :=
       match v with
       | ANone => dict_del k (node_properties n)
       | _ => dict_set k v (node_properties n)
       end |}.

(** [MATCH ... SET n.k = v] over the whole graph. *)
Definition set_where (sel : Node -> bool) (k : string) (v : Atom) (g : Graph) : Graph :=
  map (fun n => if sel n then set_property k v n else n) g.

End Cypher.

(* ================================================================== *)
(** ** The class [Neo4jLiaison] *)
(* ================================================================== *)

Module Liaison.
Import Py Neo4j.

(** The part of the world behind the driver: the neo4j package and the
    database server.  A failing call reports the message of the
    exception the driver raises.  [graph] is the property graph the
    server holds; [propmap_holds] is the server's reading of the text of
    a property map, as in [(n:label {text})]. *)
Record Backend : Type := mkBackend {
  World : Type;
  graph : World -> Cypher.Graph;
  propmap_holds : string -> Node -> bool;
  neo4j_driver_version : string;
  driver_new : string -> string -> string -> World -> (string + DriverObj) * World;
  driver_session : DriverObj -> World -> (string + Session) * World;
  driver_close : DriverObj -> World -> (string + unit) * World;
  session_run : Session -> string -> Dict Atom -> World -> (string + Result) * World
}.

(** The fields of an instance. *)
Record Neo4jLiaison : Type := mkLiaison {
  _driver : option DriverObj;
  _current_session : option Session
}.

(** The calls an instance makes on the driver, in order. *)
Inductive Event : Type :=
| EvDriver (url user pwd : string)
| EvSession (d : DriverObj)
| EvDriverClose (d : DriverObj)
| EvRun (s : Session) (cypher : string) (params : Dict Atom).

Definition is_session_event (e : Event) : bool :=
  match e with EvSession _ => true | _ => false end.

(** A call of a method on an instance, with its arguments. *)
Inductive Call : Type :=
| CallVersion
| CallClose
| CallNewSession
| CallGetSession
| CallRetrieveNodeByLabelAndId (label : string) (id_value : Atom)
| CallRetrieveNodeByLabelAndClause (label clause : string)
| CallRetrieveChildren (label : string) (id_value : Atom) (rel_name order : string)
| CallQueryListSingleField (field_name cypher : string)
                           (cypher_dict : option (Dict Atom))
| CallQueryListMultipleFieldsDict (cypher : string)
                                  (cypher_dict : option (Dict Atom))
| CallQueryListMultipleFields (cypher : string)
                              (cypher_dict : option (Dict Atom))
| CallNextAvailableId (label clause : string)
| CallCreateNode (label : string) (items : Dict Atom)
| CallChangeSingleAttributeById (label : string) (node_id : Atom)
                                (attribute_name : string)
                                (new_attribute_value : Atom)
| CallRunQuery (cypher : string) (cypher_dict : option (Dict Atom))
| CallQueryNotInUse (query : string) (db : option string).

(** The methods that send a query to the database. *)
Definition is_data_call (c : Call) : bool :=
  match c with
  | CallVersion | CallClose | CallNewSession | CallGetSession
  | CallQueryNotInUse _ _ => false
  | _ => true
  end.

Section WithBackend.
Variable B : Backend.

Record State : Type := mkState {
  self : Neo4jLiaison;
  world : World B;
  log : list Event
}.

(** State and exception monad: a raised exception keeps the state
    reached so far. *)
Definition M (A : Type) : Type := State -> result A * State.

Definition ret {A} (a : A) : M A := fun st => (inr a, st).
Definition raise {A} (e : Exn) : M A := fun st => (inl e, st).
Definition bind {A C} (m : M A) (k : A -> M C) : M C :=
  fun st =>
    match m st with
    | (inr a, st') => k a st'
    | (inl e, st') => (inl e, st')
    end.
Definition lift {A} (r : result A) : M A := fun st => (r, st).

Notation "x <- m ;; k" := (bind m (fun x => k))
  (at level 61, m at next level, right associativity).
Notation "m ;;; k" := (bind m (fun _ => k))
  (at level 61, right associativity).

Definition get_self : M Neo4jLiaison := fun st => (inr (self st), st).

Definition set_current_session (s : option Session) : M unit :=
  fun st =>
    (inr tt,
     {| self := {| _driver := _driver (self st); _current_session := s |};
        world := world st;
        log := log st |}).

(** A call on the driver: logged, then answered by the backend. *)
Definition external {A} (ev : Event)
    (call : World B -> (string + A) * World B) : M A :=
  fun st =>
    let '(r, w) := call (world st) in
    (match r with inr a => inr a | inl msg => inl (DriverError msg) end,
     {| self := self st; world := w; log := (log st ++ [ev])%list |}).

Definition call_session (d : DriverObj) : M Session :=
  external (EvSession d) (driver_session B d).
Definition call_close (d : DriverObj) : M unit :=
  external (EvDriverClose d) (driver_close B d).
Definition call_run (s : Session) (cypher : string) (params : Dict Atom)
  : M Result :=
  external (EvRun s cypher params) (session_run B s cypher params).

(** *** Construction *)

Definition init_error_prefix : string :=
  "CHECK IF NEO4J IS RUNNING! While instantiating the Neo4jLiaison object, failed to create the driver: ".

(** [Neo4jLiaison(url, user, pwd)]: the instance, or the exception
    [__init__] raises. *)
Definition __init__ (url user pwd : string) (w : World B) (lg : list Event)
  : result unit * State :=
  let '(r, w') := driver_new B url user pwd w in
  let lg' := (lg ++ [EvDriver url user pwd])%list in
  match r with
  | inr d =>
      (inr tt,
       {| self := {| _driver := Some d; _current_session := None |};
          world := w'; log := lg' |})
  | inl msg =>
      (inl (Exception (init_error_prefix ++ str_exn (DriverError msg))),
       {| self := {| _driver := None; _current_session := None |};
          world := w'; log := lg' |})
  end.

Definition version : string := neo4j_driver_version B.

Definition close : M unit :=
  o <- get_self ;;
  match _driver o with
  | Some d => call_close d
  | None => ret tt
  end.

(** *** Sessions *)

Definition driver_not_set : string :=
  "Calling the session() method, but self._driver isn't set".

Definition new_session : M Session :=
  o <- get_self ;;
  match _driver o with
  | None => raise (Exception driver_not_set)
  | Some d =>
      s <- call_session d ;;
      set_current_session (Some s) ;;;
      ret s
  end.

Definition get_session : M Session :=
  o <- get_self ;;
  match _current_session o with
  | Some s => ret s
  | None => new_session
  end.

(** *** Generic queries *)

Definition or_empty (cypher_dict : option (Dict Atom)) : Dict Atom :=
  match cypher_dict with
  | None => []
  | Some d => d
  end.

Definition run_query (cypher : string) (cypher_dict : option (Dict Atom))
  : M Result :=
  sess <- get_session ;;
  call_run sess cypher (or_empty cypher_dict).

(** The driver object has no method [sess]: either branch of the [try]
    raises [AttributeError], the [except] clause swallows it, [session]
    is still [None] in the [finally] clause and [response] is returned
    as [None]. *)
Definition query_NOT_IN_USE (query : string) (db : option string)
  : M (option (list DbRecord)) :=
  o <- get_self ;;
  match _driver o with
  | None => raise (AssertionError "Driver not initialized!")
  | Some _ => ret None
  end.

(** *** Retrieval *)

Definition retrieve_node_by_label_and_id (label : string) (id_value : Atom)
  : M (option (Dict Atom)) :=
  sess <- get_session ;;
  cypher <- lift (pct_format "MATCH (n:%s {id:$id}) RETURN n" [label]) ;;
  result_obj <- call_run sess cypher [("id", id_value)] ;;
  match result_single result_obj with
  | None => ret None
  | Some record =>
      let node := record_getitem_int record 0 in
      node_as_items <- lift (value_items node) ;;
      ret (Some (dict_of_items node_as_items))
  end.

(** The body of the [for] loop, record by record. *)
Fixpoint nodes_as_dicts (records : list DbRecord) : result (list (Dict Atom)) :=
  match records with
  | [] => inr []
  | record :: rest =>
      match value_items (record_getitem_int record 0) with
      | inl e => inl e
      | inr node_as_items =>
          match nodes_as_dicts rest with
          | inl e => inl e
          | inr ds => inr (dict_of_items node_as_items :: ds)
          end
      end
  end.

Definition retrieve_node_by_label_and_clause (label clause : string)
  : M (list (Dict Atom)) :=
  sess <- get_session ;;
  cypher <- lift (pct_format "MATCH (n:%s) WHERE %s RETURN n" [label; clause]) ;;
  result_obj <- call_run sess cypher [] ;;
  lift (nodes_as_dicts result_obj).

(** [[i["m"] for i in result_as_list_dict]] *)
Fixpoint pick_m (rows : list (Dict Datum)) : result (list Datum) :=
  match rows with
  | [] => inr []
  | i :: rest =>
      match dict_get "m" i with
      | None => inl (KeyError "m")
      | Some child =>
          match pick_m rest with
          | inl e => inl e
          | inr cs => inr (child :: cs)
          end
      end
  end.

Definition retrieve_children (label : string) (id_value : Atom)
    (rel_name order : string) : M (list Datum) :=
  sess <- get_session ;;
  cypher <- lift (pct_format "MATCH (n:%s {id:$id})-[:%s]->(m) RETURN m"
                             [label; rel_name]) ;;
  result_obj <- call_run sess cypher [("id", id_value); ("rel_name", AStr rel_name)] ;;
  lift (pick_m (result_data result_obj)).

Definition query_list_single_field (field_name cypher : string)
    (cypher_dict : option (Dict Atom)) : M (list Value) :=
  let cypher_dict := or_empty cypher_dict in
  sess <- get_session ;;
  result_obj <- call_run sess cypher cypher_dict ;;
  ret (result_value result_obj field_name).

Definition query_list_multiple_fields_dict (cypher : string)
    (cypher_dict : option (Dict Atom)) : M (list (Dict Value)) :=
  let cypher_dict := or_empty cypher_dict in
  sess <- get_session ;;
  result_obj <- call_run sess cypher cypher_dict ;;
  ret (map dict_of_record result_obj).

Definition query_list_multiple_fields (cypher : string)
    (cypher_dict : option (Dict Atom)) : M (list (list Value)) :=
  let cypher_dict := or_empty cypher_dict in
  sess <- get_session ;;
  result_obj <- call_run sess cypher cypher_dict ;;
  ret (map record_tuple result_obj).

Definition next_available_id (label clause : string) : M Value :=
  cypher <-
    (if String.eqb clause "" then
       ret ("MATCH (n:" ++ label ++ ") RETURN 1+max(n.id) AS max_value")
     else
       lift (pct_format "MATCH (n:%s {%s}) RETURN 1+max(n.id) AS max_value"
                        [label; clause])) ;;
  result_list <- query_list_single_field "max_value" cypher None ;;
  result <- lift (list_getitem result_list 0) ;;
  match result with
  | VAtom ANone => ret (VAtom (AInt 1))
  | _ => ret result
  end.

(** *** Modification *)

(** Returns the result object after [result.value()] has consumed it
    for the [print]. *)
Definition create_node (label : string) (items : Dict Atom) : M Result :=
  let pair_list := map (fun key => key ++ ": $" ++ key) (keys items) in
  let separator_string := ", " in
  let attributes_str := join separator_string pair_list in
  cypher <- lift (pct_format "CREATE (:%s {%s})" [label; attributes_str]) ;;
  result <- run_query cypher (Some items) ;;
  let _printed := result_value0 result in
  ret [].

Definition change_single_attribute_by_id (label : string) (node_id : Atom)
    (attribute_name : string) (new_attribute_value : Atom) : M unit :=
  let cypher :=
    "MATCH (n:" ++ label ++ ") WHERE n.id = $node_id SET n."
      ++ attribute_name ++ " = $new_attribute_value" in
  let cypher_dict :=
    [("node_id", node_id); ("new_attribute_value", new_attribute_value)] in
  result_obj <- run_query cypher (Some cypher_dict) ;;
  ret tt.

(** *** Sequences of calls *)

(** A method run for its effect: the exception it raised, if any, and
    the state it leaves. *)
Definition exec {A} (m : M A) (st : State) : option Exn * State :=
  match m st with
  | (inr _, st') => (None, st')
  | (inl e, st') => (Some e, st')
  end.

Definition invoke (c : Call) : State -> option Exn * State :=
  match c with
  | CallVersion => exec (ret version)
  | CallClose => exec close
  | CallNewSession => exec new_session
  | CallGetSession => exec get_session
  | CallRetrieveNodeByLabelAndId l i => exec (retrieve_node_by_label_and_id l i)
  | CallRetrieveNodeByLabelAndClause l c =>
      exec (retrieve_node_by_label_and_clause l c)
  | CallRetrieveChildren l i r o => exec (retrieve_children l i r o)
  | CallQueryListSingleField f q d => exec (query_list_single_field f q d)
  | CallQueryListMultipleFieldsDict q d =>
      exec (query_list_multiple_fields_dict q d)
  | CallQueryListMultipleFields q d => exec (query_list_multiple_fields q d)
  | CallNextAvailableId l c => exec (next_available_id l c)
  | CallCreateNode l items => exec (create_node l items)
  | CallChangeSingleAttributeById l i a v =>
      exec (change_single_attribute_by_id l i a v)
  | CallRunQuery q d => exec (run_query q d)
  | CallQueryNotInUse q db => exec (query_NOT_IN_USE q db)
  end.

(** The state after a sequence of calls; the caller goes on after an
    exception. *)
Fixpoint invoke_all (cs : list Call) (st : State) : State :=
  match cs with
  | [] => st
  | c :: cs' => invoke_all cs' (snd (invoke c st))
  end.

(** The driver calls made between two states. *)
Definition new_events (before after : State) : list Event :=
  skipn (List.length (log before)) (log after).

(** A computation that never assigns [_driver]. *)
Definition keeps_driver {A} (m : M A) : Prop :=
  forall st, _driver (self (snd (m st))) = _driver (self st).

End WithBackend.

Arguments self {B} _.
Arguments world {B} _.
Arguments log {B} _.
Arguments new_events {B} _ _.
Arguments keeps_driver {B A} _.
End Liaison.

(* ================================================================== *)
(** ** An in-memory backend

    A small server that reads the fragment of Cypher the class emits and
    answers it on a list of nodes.  It serves as the concrete backend on
    which the general statements below are exercised. *)
(* ================================================================== *)

Module MemDriver.
Import Py Neo4j.

(** *** Lexing *)

Inductive Token : Type :=
| TName (s : string)
| TNum (z : Z)
| TText (s : string)
| TParam (s : string)
| TSym (c : ascii).

Inductive LexState : Type :=
| Idle
| InName (acc : string)
| InNum (acc : Z)
| InText (acc : string)
| InParam (acc : string).

Definition is_digit (c : ascii) : bool :=
  let n := nat_of_ascii c in Nat.leb 48 n && Nat.leb n 57.

Definition is_letter (c : ascii) : bool :=
  let n := nat_of_ascii c in
  (Nat.leb 65 n && Nat.leb n 90) || (Nat.leb 97 n && Nat.leb n 122)
  || Nat.eqb n 95.

Definition digit_value (c : ascii) : Z := Z.of_nat (nat_of_ascii c - 48).

Definition snoc (s : string) (c : ascii) : string := s ++ String c "".

Definition flush (st : LexState) : list Token :=
  match st with
  | Idle => []
  | InName acc => [TName acc]
  | InNum z => [TNum z]
  | InText acc => [TText acc]
  | InParam acc => [TParam acc]
  end.

Fixpoint lex (st : LexState) (s : string) : list Token :=
  match s with
  | EmptyString => flush st
  | String c s' =>
      match st with
      | InText acc =>
          if Ascii.eqb c "'" then TText acc :: lex Idle s'
          else lex (InText (snoc acc c)) s'
      | _ =>
          if is_letter c || is_digit c then
            match st with
            | InName acc => lex (InName (snoc acc c)) s'
            | InParam acc => lex (InParam (snoc acc c)) s'
            | InNum z =>
                if is_digit c then lex (InNum (10 * z + digit_value c)) s'
                else (TNum z :: lex (InName (String c "")) s')%list
            | _ =>
                if is_digit c then lex (InNum (digit_value c)) s'
                else lex (InName (String c "")) s'
            end
          else
            (flush st ++
             (if Ascii.eqb c "'" then lex (InText "") s'
              else if Ascii.eqb c "$" then lex (InParam "") s'
              else if Ascii.eqb c " " then lex Idle s'
              else TSym c :: lex Idle s'))%list
      end
  end.

Definition tokens (s : string) : list Token := lex Idle s.

(** *** Parsing *)

Inductive Expr : Type :=
| EParam (p : string)
| EText (s : string)
| ENum (z : Z)
| EProp (var key : string).

Inductive Ret : Type :=
| RetVar (var : string)
| RetNextId (var alias : string)
| RetFields (fs : list (string * Expr)).

Inductive Action : Type :=
| AReturn (r : Ret)
| ASet (var key : string) (e : Expr).

Inductive Query : Type :=
| QMatch (var label : string) (pm : list (string * Expr))
         (cond : list (Expr * Expr)) (act : Action)
| QCreate (label : string) (pm : list (string * Expr)).

Definition parse_expr (ts : list Token) : option (Expr * list Token) :=
  match ts with
  | TParam p :: r => Some (EParam p, r)
  | TText s :: r => Some (EText s, r)
  | TNum z :: r => Some (ENum z, r)
  | TName v :: TSym "." :: TName k :: r => Some (EProp v k, r)
  | _ => None
  end.

(** The entries of a property map, up to and including the closing
    brace. *)
Fixpoint parse_map (fuel : nat) (ts : list Token)
  : option (list (string * Expr) * list Token) :=
  match fuel with
  | O => None
  | S fuel' =>
      match ts with
      | TSym "}" :: r => Some ([], r)
      | TName k :: TSym ":" :: r =>
          match parse_expr r with
          | Some (e, TSym "," :: r') =>
              match parse_map fuel' r' with
              | Some (pm, r'') => Some ((k, e) :: pm, r'')
              | None => None
              end
          | Some (e, TSym "}" :: r') => Some ([(k, e)], r')
          | _ => None
          end
      | _ => None
      end
  end.

(** [e1 = e2 AND ...] *)
Fixpoint parse_cond (fuel : nat) (ts : list Token)
  : option (list (Expr * Expr) * list Token) :=
  match fuel with
  | O => None
  | S fuel' =>
      match parse_expr ts with
      | Some (e1, TSym "=" :: r) =>
          match parse_expr r with
          | Some (e2, TName "AND" :: r') =>
              match parse_cond fuel' r' with
              | Some (cs, r'') => Some ((e1, e2) :: cs, r'')
              | None => None
              end
          | Some (e2, r') => Some ([(e1, e2)], r')
          | None => None
          end
      | _ => None
      end
  end.

Definition default_name (e : Expr) : string :=
  match e with
  | EProp v k => v ++ "." ++ k
  | EParam p => "$" ++ p
  | EText s => s
  | ENum _ => "n"
  end.

(** [e AS name, ...] up to the end of the query. *)
Fixpoint parse_fields (fuel : nat) (ts : list Token)
  : option (list (string * Expr)) :=
  match fuel with
  | O => None
  | S fuel' =>
      match parse_expr ts with
      | Some (e, []) => Some [(default_name e, e)]
      | Some (e, [TName "AS"; TName a]) => Some [(a, e)]
      | Some (e, TSym "," :: r) =>
          option_map (cons (default_name e, e)) (parse_fields fuel' r)
      | Some (e, TName "AS" :: TName a :: TSym "," :: r) =>
          option_map (cons (a, e)) (parse_fields fuel' r)
      | _ => None
      end
  end.

Definition parse_return (ts : list Token) : option Ret :=
  match ts with
  | [TName v] => Some (RetVar v)
  | [TNum 1; TSym "+"; TName "max"; TSym "("; TName v; TSym ".";
     TName "id"; TSym ")"; TName "AS"; TName a] => Some (RetNextId v a)
  | _ => option_map RetFields (parse_fields (S (List.length ts)) ts)
  end.

Definition parse_action (ts : list Token) : option Action :=
  match ts with
  | TName "RETURN" :: r => option_map AReturn (parse_return r)
  | TName "SET" :: TName v :: TSym "." :: TName k :: TSym "=" :: r =>
      match parse_expr r with
      | Some (e, []) => Some (ASet v k e)
      | _ => None
      end
  | _ => None
  end.

Definition parse_tail (v l : string) (pm : list (string * Expr))
    (ts : list Token) : option Query :=
  match ts with
  | TName "WHERE" :: r =>
      match parse_cond (S (List.length r)) r with
      | Some (cs, r') => option_map (QMatch v l pm cs) (parse_action r')
      | None => None
      end
  | _ => option_map (QMatch v l pm []) (parse_action ts)
  end.

Definition parse (ts : list Token) : option Query :=
  match ts with
  | TName "MATCH" :: TSym "(" :: TName v :: TSym ":" :: TName l :: r =>
      match r with
      | TSym ")" :: r' => parse_tail v l [] r'
      | TSym "{" :: r' =>
          match parse_map (S (List.length r')) r' with
          | Some (pm, TSym ")" :: r'') => parse_tail v l pm r''
          | _ => None
          end
      | _ => None
      end
  | TName "CREATE" :: TSym "(" :: TSym ":" :: TName l :: TSym "{" :: r =>
      match parse_map (S (List.length r)) r with
      | Some (pm, [TSym ")"]) => Some (QCreate l pm)
      | _ => None
      end
  | _ => None
  end.

(** *** Evaluation *)

Definition eval (params : Dict Atom) (n : Node) (e : Expr) : Atom :=
  match e with
  | EParam p => match dict_get p params with Some a => a | None => ANone end
  | EText s => AStr s
  | ENum z => AInt z
  | EProp _ k =>
      match dict_get k (node_properties n) with Some a => a | None => ANone end
  end.

(** Equality of two values, neither of them [null]. *)
Definition equal_non_null (a b : Atom) : bool :=
  match a with
  | ANone => false
  | _ => atom_eqb a b
  end.

Definition map_holds (params : Dict Atom) (pm : list (string * Expr))
    (n : Node) : bool :=
  forallb (fun ke => Cypher.prop_is (fst ke) (eval params n (snd ke)) n) pm.

Definition cond_holds (params : Dict Atom) (cs : list (Expr * Expr))
    (n : Node) : bool :=
  forallb
    (fun c => equal_non_null (eval params n (fst c)) (eval params n (snd c)))
    cs.

Definition selects (params : Dict Atom) (label : string)
    (pm : list (string * Expr)) (cs : list (Expr * Expr)) (n : Node) : bool :=
  Cypher.has_label label n && map_holds params pm n && cond_holds params cs n.

(** The reading of the text of a property map. *)
Definition propmap_holds (text : string) (n : Node) : bool :=
  let ts := (tokens text ++ [TSym "}"])%list in
  match parse_map (S (List.length ts)) ts with
  | Some (pm, []) => map_holds [] pm n
  | _ => false
  end.

Definition no_node : Node :=
  {| node_identity := 0; node_labels := []; node_properties := [] |}.

Definition fresh_id (g : Cypher.Graph) : Z :=
  1 + fold_left Z.max (map node_identity g) 0%Z.

Definition without_none (d : Dict Atom) : Dict Atom :=
  filter (fun kv => match snd kv with ANone => false | _ => true end) d.

(** The answer to a parsed query and the graph it leaves. *)
Definition answer (q : Query) (params : Dict Atom) (g : Cypher.Graph)
  : Result * Cypher.Graph :=
  match q with
  | QMatch v l pm cs act =>
      let sel := selects params l pm cs in
      match act with
      | AReturn (RetVar _) => (Cypher.return_nodes v (filter sel g), g)
      | AReturn (RetNextId _ a) =>
          ([[(a, VAtom (Cypher.one_plus_max (Cypher.int_ids (filter sel g))))]],
           g)
      | AReturn (RetFields fs) =>
          (map (fun n => map (fun f => (fst f, VAtom (eval params n (snd f)))) fs)
               (filter sel g),
           g)
      | ASet _ k e => ([], Cypher.set_where sel k (eval params no_node e) g)
      end
  | QCreate l pm =>
      ([],
       (g ++ [{| node_identity := fresh_id g;
                 node_labels := [l];
                 node_properties :=
                   without_none
                     (dict_of_items
                        (map (fun ke => (fst ke, eval params no_node (snd ke)))
                             pm)) |}])%list)
  end.

(** *** The backend *)

Record MemWorld : Type := mkWorld {
  mem_graph : Cypher.Graph;
  mem_sessions : nat;
  mem_closed : bool
}.

Definition mem_driver_new (url user pwd : string) (w : MemWorld)
  : (string + DriverObj) * MemWorld :=
  if String.eqb url "" then (inl "URI scheme is not supported", w)
  else (inr 0, w).

Definition mem_driver_session (d : DriverObj) (w : MemWorld)
  : (string + Session) * MemWorld :=
  (inr (mem_sessions w),
   {| mem_graph := mem_graph w;
      mem_sessions := S (mem_sessions w);
      mem_closed := mem_closed w |}).

Definition mem_driver_close (d : DriverObj) (w : MemWorld)
  : (string + unit) * MemWorld :=
  (inr tt,
   {| mem_graph := mem_graph w;
      mem_sessions := mem_sessions w;
      mem_closed := true |}).

Definition mem_session_run (s : Session) (cypher : string)
    (params : Dict Atom) (w : MemWorld) : (string + Result) * MemWorld :=
  if mem_closed w then (inl "the driver is closed", w)
  else
    match parse (tokens cypher) with
    | None => (inl "invalid or unsupported query", w)
    | Some q =>
        let '(res, g) := answer q params (mem_graph w) in
        (inr res,
         {| mem_graph := g;
            mem_sessions := mem_sessions w;
            mem_closed := mem_closed w |})
    end.

Definition backend : Liaison.Backend :=
  {| Liaison.World := MemWorld;
     Liaison.graph := mem_graph;
     Liaison.propmap_holds := propmap_holds;
     Liaison.neo4j_driver_version := "4.1.0";
     Liaison.driver_new := mem_driver_new;
     Liaison.driver_session := mem_driver_session;
     Liaison.driver_close := mem_driver_close;
     Liaison.session_run := mem_session_run |}.

(** *** A sample database and a connected instance *)

Definition alice : Node :=
  {| node_identity := 10; node_labels := ["OC"; "OC_subject"];
     node_properties := [("id", AInt 110); ("gender", AStr "M")] |}.
Definition bob : Node :=
  {| node_identity := 11; node_labels := ["OC_subject"];
     node_properties := [("gender", AStr "M"); ("id", AInt 49); ("dob", AStr "1-Jan-85")] |}.
Definition carol : Node :=
  {| node_identity := 12; node_labels := ["OC_subject"];
     node_properties := [("id", AInt 62); ("gender", AStr "F")] |}.
Definition sample : Node :=
  {| node_identity := 13; node_labels := ["OC_sampling"];
     node_properties := [("id", AInt 190); ("collection_location", AStr "OpenCures")] |}.

Definition sample_graph : Cypher.Graph := [alice; bob; carol; sample].

Definition sample_world : MemWorld :=
  {| mem_graph := sample_graph; mem_sessions := 0; mem_closed := false |}.

(** The state right after [Neo4jLiaison("neo4j://localhost:7687", "neo4j", "pwd")]. *)
Definition connected : Liaison.State backend :=
  snd (Liaison.__init__ backend "neo4j://localhost:7687" "neo4j" "pwd"
                        sample_world []).

(** The same instance once it holds a session. *)
Definition with_session : Liaison.State backend :=
  snd (Liaison.get_session backend connected).

(** The world after the attribute [gender] of the subject 49 was set. *)
Definition world_after_change : MemWorld :=
  {| mem_graph :=
       Cypher.set_where (Cypher.label_and_id "OC_subject" (AInt 49))
                        "gender" (AStr "X") sample_graph;
     mem_sessions := 1;
     mem_closed := false |}.

End MemDriver.

(* ================================================================== *)
(** ** Vocabulary of the properties *)
(* ================================================================== *)

Module Spec.
Import Py Neo4j.

(** The attribute part of a [CREATE] query, written out:
    [name: $name] for each name, separated by a comma and a space. *)
Fixpoint attribute_list (names : list string) : string :=
  match names with
  | [] => ""
  | [k] => k ++ ": $" ++ k
  | k :: rest => k ++ ": $" ++ k ++ ", " ++ attribute_list rest
  end.

(** A node carries the label and its attribute [id] has the value. *)
Definition labelled_with_id (label : string) (v : Atom) (n : Node) : Prop :=
  In label (node_labels n) /\ dict_get "id" (node_properties n) = Some v.

(** A node carries the label and, when a clause is given, satisfies it
    as the server reads it. *)
Definition matches (B : Liaison.Backend) (label clause : string) (n : Node)
  : Prop :=
  In label (node_labels n)
  /\ (clause = "" \/ Liaison.propmap_holds B clause n = true).

Definition matchesb (B : Liaison.Backend) (label clause : string) (n : Node)
  : bool :=
  Cypher.has_label label n
  && (String.eqb clause "" || Liaison.propmap_holds B clause n).

(** The text of the aggregate query of [next_available_id]. *)
Definition next_id_query (label clause : string) : string :=
  if String.eqb clause "" then
    "MATCH (n:" ++ label ++ ") RETURN 1+max(n.id) AS max_value"
  else
    "MATCH (n:" ++ label ++ " {" ++ clause ++ "}) RETURN 1+max(n.id) AS max_value".

End Spec.

(* ================================================================== *)
(** ** Facts about the Python builtins *)
(* ================================================================== *)

Module PyFacts.
Import Py.

Lemma append_assoc (a b c : string) : (a ++ b) ++ c = a ++ (b ++ c).
Proof.
  induction a as [|x a IH]; simpl; [reflexivity | now rewrite IH].
Qed.

Lemma existsb_eqb_In (k : string) (ks : list string) :
  existsb (String.eqb k) ks = true <-> In k ks.
Proof.
  rewrite existsb_exists. split.
  - intros [x [Hin Heq]]. apply String.eqb_eq in Heq. now subst.
  - intros Hin. exists k. split; [assumption | apply String.eqb_refl].
Qed.

Lemma distinct_NoDup (ks : list string) : distinct ks = true <-> NoDup ks.
Proof.
  induction ks as [|k ks IH]; simpl.
  - split; [constructor | reflexivity].
  - rewrite andb_true_iff, negb_true_iff, IH. split.
    + intros [Hn Hd]. constructor; [|assumption].
      intros Hin. apply existsb_eqb_In in Hin. congruence.
    + intros Hnd. inversion Hnd as [|? ? Hn Hd]; subst. split; [|assumption].
      destruct (existsb (String.eqb k) ks) eqn:E; [|reflexivity].
      apply existsb_eqb_In in E. contradiction.
Qed.

Lemma wfb_wf {V} (d : Dict V) : wfb d = true -> wf d.
Proof. apply distinct_NoDup. Qed.

Lemma dict_get_In {V} (k : string) (v : V) (d : Dict V) :
  dict_get k d = Some v -> In (k, v) d.
Proof.
  induction d as [|[k' v'] d IH]; simpl; [discriminate|].
  destruct (String.eqb k k') eqn:E.
  - apply String.eqb_eq in E. intros [= ->]. subst. now left.
  - intros H. right. auto.
Qed.

Lemma dict_get_None {V} (k : string) (d : Dict V) :
  dict_get k d = None <-> ~ In k (keys d).
Proof.
  induction d as [|[k' v'] d IH]; simpl.
  - split; auto.
  - destruct (String.eqb k k') eqn:E.
    + apply String.eqb_eq in E. subst. split; [discriminate | intros H; exfalso; auto].
    + apply String.eqb_neq in E. rewrite IH. split.
      * intros H [H1 | H1]; [congruence | contradiction].
      * intros H H1. apply H. now right.
Qed.

Lemma In_dict_get {V} (k : string) (v : V) (d : Dict V) :
  wf d -> In (k, v) d -> dict_get k d = Some v.
Proof.
  unfold wf. induction d as [|[k' v'] d IH]; simpl; [contradiction|].
  intros Hnd Hin. inversion Hnd as [|? ? Hn Hd]; subst.
  destruct Hin as [[= -> ->] | Hin].
  - now rewrite String.eqb_refl.
  - destruct (String.eqb k k') eqn:E; [|auto].
    apply String.eqb_eq in E. subst. exfalso. apply Hn.
    change k' with (fst (k', v)). now apply in_map.
Qed.

Lemma dict_set_fresh {V} (k : string) (v : V) (d : Dict V) :
  ~ In k (keys d) -> dict_set k v d = (d ++ [(k, v)])%list.
Proof.
  induction d as [|[k' v'] d IH]; simpl; intros Hn; [reflexivity|].
  destruct (String.eqb k k') eqn:E.
  - apply String.eqb_eq in E. subst. exfalso. auto.
  - f_equal. apply IH. auto.
Qed.

Lemma fold_dict_set_fresh {V} (items acc : Dict V) :
  NoDup (keys acc ++ keys items) ->
  fold_left (fun d kv => dict_set (fst kv) (snd kv) d) items acc
  = (acc ++ items)%list.
Proof.
  revert acc. induction items as [|[k v] items IH]; intros acc Hnd; simpl.
  - now rewrite app_nil_r.
  - simpl in Hnd. rewrite dict_set_fresh.
    + rewrite IH.
      * now rewrite <- app_assoc.
      * unfold keys in *. rewrite map_app. simpl. rewrite <- app_assoc. exact Hnd.
    + apply NoDup_remove_2 in Hnd. intros Hin. apply Hnd.
      apply in_or_app. now left.
Qed.

(** [dict(d.items())] is [d] again. *)
Lemma dict_of_items_wf {V} (d : Dict V) : wf d -> dict_of_items d = d.
Proof.
  intros Hwf. unfold dict_of_items. now rewrite fold_dict_set_fresh.
Qed.

Lemma dict_get_set_same {V} (k : string) (v : V) (d : Dict V) :
  dict_get k (dict_set k v d) = Some v.
Proof.
  induction d as [|[k' v'] d IH]; simpl.
  - now rewrite String.eqb_refl.
  - destruct (String.eqb k k') eqn:E; simpl; rewrite E; auto.
Qed.

Lemma dict_get_set_other {V} (k k' : string) (v : V) (d : Dict V) :
  k' <> k -> dict_get k' (dict_set k v d) = dict_get k' d.
Proof.
  intros Hne. induction d as [|[k0 v0] d IH]; simpl.
  - apply String.eqb_neq in Hne. now rewrite Hne.
  - destruct (String.eqb k k0) eqn:E; simpl.
    + apply String.eqb_eq in E. subst.
      apply String.eqb_neq in Hne. now rewrite Hne.
    + now rewrite IH.
Qed.

Lemma dict_get_del_other {V} (k k' : string) (d : Dict V) :
  k' <> k -> dict_get k' (dict_del k d) = dict_get k' d.
Proof.
  intros Hne. induction d as [|[k0 v0] d IH]; simpl; [reflexivity|].
  destruct (String.eqb k k0) eqn:E; simpl.
  - apply String.eqb_eq in E. subst.
    apply String.eqb_neq in Hne. now rewrite Hne.
  - now rewrite IH.
Qed.

Lemma atom_eqb_eq (a b : Atom) : atom_eqb a b = true -> a = b.
Proof.
  destruct a, b; simpl; try discriminate; intros H.
  - reflexivity.
  - apply Z.eqb_eq in H. now subst.
  - apply String.eqb_eq in H. now subst.
Qed.

End PyFacts.

(* ================================================================== *)
(** ** Facts about the driver's objects *)
(* ================================================================== *)

Module Neo4jFacts.
Import Py Neo4j PyFacts.

Lemma index_of_dict_get (k : string) (r : DbRecord) :
  match index_of k (record_keys r), dict_get k r with
  | Some i, Some v => nth i (record_tuple r) VNone = v
  | None, None => True
  | _, _ => False
  end.
Proof.
  induction r as [|[k' v'] r IH]; simpl; [exact I|].
  destruct (String.eqb k k'); simpl; [reflexivity|].
  fold (record_keys r). fold (record_tuple r).
  destruct (index_of k (record_keys r)), (dict_get k r); simpl; auto.
Qed.

(** [Record.value(key)] is the value bound to the key, or the default. *)
Lemma record_value_dict_get (r : DbRecord) (k : string) (default : Value) :
  record_value r k default
  = match dict_get k r with Some v => v | None => default end.
Proof.
  unfold record_value, record_index_str.
  pose proof (index_of_dict_get k r) as H.
  destruct (index_of k (record_keys r)), (dict_get k r);
    try contradiction; auto.
Qed.

Lemma fold_dict_set_map {V} (f : string -> V) (ks : list string) (acc : Dict V) :
  fold_left (fun d k => dict_set k (f k) d) ks acc
  = fold_left (fun d kv => dict_set (fst kv) (snd kv) d)
              (map (fun k => (k, f k)) ks) acc.
Proof.
  revert acc. induction ks as [|k ks IH]; intros acc; simpl; auto.
Qed.

(** With distinct field names, [dict(record)] lists the fields of the
    record in order. *)
Lemma dict_of_record_wf (r : DbRecord) : wf r -> dict_of_record r = r.
Proof.
  intros Hwf. unfold dict_of_record. rewrite fold_dict_set_map.
  assert (Hmap : map (fun k => (k, record_value r k VNone)) (record_keys r) = r).
  { unfold record_keys. rewrite map_map.
    rewrite <- (map_id r) at 2. apply map_ext_in.
    intros [k v] Hin. simpl. rewrite record_value_dict_get.
    now rewrite (In_dict_get k v r Hwf Hin). }
  rewrite Hmap. now apply dict_of_items_wf.
Qed.

Lemma result_value_nth (res : Result) (k : string) (i : nat) (r : DbRecord) :
  nth_error res i = Some r ->
  nth_error (result_value res k) i
  = Some (match dict_get k r with Some v => v | None => VNone end).
Proof.
  intros H. unfold result_value.
  rewrite nth_error_map, H. simpl. now rewrite record_value_dict_get.
Qed.

End Neo4jFacts.

(* ================================================================== *)
(** ** Facts about sessions and driver calls *)
(* ================================================================== *)

Module LiaisonFacts.
Import Py Neo4j Liaison PyFacts Neo4jFacts.

Section WithBackend.
Variable B : Backend.

Lemma call_run_eq (s : Session) (q : string) (p : Dict Atom) (st : State B)
    (res : Result) (w : World B) :
  session_run B s q p (world st) = (inr res, w) ->
  call_run B s q p st
  = (inr res,
     {| self := self st; world := w;
        log := (log st ++ [EvRun s q p])%list |}).
Proof.
  intros H. unfold call_run, external. now rewrite H.
Qed.

Lemma call_run_log (s : Session) (q : string) (p : Dict Atom) (st : State B) :
  log (snd (call_run B s q p st)) = (log st ++ [EvRun s q p])%list
  /\ self (snd (call_run B s q p st)) = self st.
Proof.
  unfold call_run, external.
  destruct (session_run B s q p (world st)) as [r w]. simpl. auto.
Qed.

(** A stored session is returned as it is. *)
Lemma get_session_stored (st : State B) (s : Session) :
  _current_session (self st) = Some s ->
  get_session B st = (inr s, st).
Proof.
  intros H. unfold get_session, bind, get_self. now rewrite H.
Qed.

(** Without a stored session, a new one is opened and stored. *)
Lemma get_session_fresh (st : State B) (d : DriverObj) (s : Session)
    (w : World B) :
  _current_session (self st) = None ->
  _driver (self st) = Some d ->
  driver_session B d (world st) = (inr s, w) ->
  get_session B st
  = (inr s,
     {| self := {| _driver := Some d; _current_session := Some s |};
        world := w;
        log := (log st ++ [EvSession d])%list |}).
Proof.
  intros Hs Hd Hw.
  unfold get_session, new_session, bind, get_self, call_session, external,
    set_current_session, ret.
  rewrite Hs. simpl. rewrite Hd. simpl. rewrite Hw. simpl. now rewrite Hd.
Qed.

(** The session [get_session] returns is the one stored afterwards. *)
Lemma get_session_stores (st st1 : State B) (s : Session) :
  get_session B st = (inr s, st1) ->
  _current_session (self st1) = Some s /\ _driver (self st1) = _driver (self st).
Proof.
  unfold get_session, new_session, bind, get_self, call_session, external,
    set_current_session, ret, raise.
  destruct (_current_session (self st)) as [s0|] eqn:Hs.
  - intros [= <- <-]. auto.
  - destruct (_driver (self st)) as [d|] eqn:Hd; [|discriminate].
    destruct (driver_session B d (world st)) as [[msg|s1] w]; simpl;
      [discriminate|].
    intros [= <- <-]. simpl. auto.
Qed.

End WithBackend.
End LiaisonFacts.

(* ================================================================== *)
(** ** Properties of the class *)
(* ================================================================== *)

Module Properties.
Import Py Neo4j Liaison PyFacts Neo4jFacts LiaisonFacts.

Lemma join_attribute_list (names : list string) :
  join ", " (map (fun key => key ++ ": $" ++ key) names)
  = Spec.attribute_list names.
Proof.
  induction names as [|k [|k' rest] IH]; try reflexivity.
  change (Spec.attribute_list (k :: k' :: rest))
    with (k ++ ": $" ++ k ++ ", " ++ Spec.attribute_list (k' :: rest)).
  rewrite <- IH. simpl. rewrite append_assoc. reflexivity.
Qed.

(** The five [%]-templates of the class, expanded. *)
Lemma format_by_id (label : string) :
  pct_format "MATCH (n:%s {id:$id}) RETURN n" [label]
  = inr ("MATCH (n:" ++ label ++ " {id:$id}) RETURN n").
Proof. reflexivity. Qed.

Lemma format_by_clause (label clause : string) :
  pct_format "MATCH (n:%s) WHERE %s RETURN n" [label; clause]
  = inr ("MATCH (n:" ++ label ++ ") WHERE " ++ clause ++ " RETURN n").
Proof. reflexivity. Qed.

Lemma format_children (label rel_name : string) :
  pct_format "MATCH (n:%s {id:$id})-[:%s]->(m) RETURN m" [label; rel_name]
  = inr ("MATCH (n:" ++ label ++ " {id:$id})-[:" ++ rel_name ++ "]->(m) RETURN m").
Proof. reflexivity. Qed.

Lemma format_next_id (label clause : string) :
  pct_format "MATCH (n:%s {%s}) RETURN 1+max(n.id) AS max_value" [label; clause]
  = inr ("MATCH (n:" ++ label ++ " {" ++ clause
           ++ "}) RETURN 1+max(n.id) AS max_value").
Proof. reflexivity. Qed.

Lemma format_create (label attributes_str : string) :
  pct_format "CREATE (:%s {%s})" [label; attributes_str]
  = inr ("CREATE (:" ++ label ++ " {" ++ attributes_str ++ "})").
Proof. reflexivity. Qed.

(** C1.  Query construction.  Once a session [sess] is at hand, each of
    the three methods makes exactly one [run] call on it:
    [retrieve_node_by_label_and_id] sends
    ["MATCH (n:<label> {id:$id}) RETURN n"] with [id_value] bound to
    [id]; [change_single_attribute_by_id] sends the text with the label
    and the attribute name substituted and binds [node_id] and
    [new_attribute_value]; [create_node] sends the text with the label
    and the attribute names, in the order of the dictionary, and binds
    the dictionary itself, every value under its own name.  The other
    query-building methods follow the same rule:
    [retrieve_node_by_label_and_clause] and [next_available_id]
    substitute the label and the clause and bind nothing;
    [retrieve_children] substitutes the label and the relationship name
    and binds [id_value] (and, besides, the relationship name). *)
Theorem query_construction (B : Backend) (st st1 : State B) (sess : Session) :
  get_session B st = (inr sess, st1) ->
  (forall label id_value,
      log (snd (retrieve_node_by_label_and_id B label id_value st))
      = (log st1
           ++ [EvRun sess ("MATCH (n:" ++ label ++ " {id:$id}) RETURN n")
                     [("id", id_value)]])%list)
  /\ (forall label node_id attribute_name new_attribute_value,
         log (snd (change_single_attribute_by_id
                     B label node_id attribute_name new_attribute_value st))
         = (log st1
              ++ [EvRun sess
                        ("MATCH (n:" ++ label ++ ") WHERE n.id = $node_id SET n."
                           ++ attribute_name ++ " = $new_attribute_value")
                        [("node_id", node_id);
                         ("new_attribute_value", new_attribute_value)]])%list)
  /\ (forall label items,
         log (snd (create_node B label items st))
         = (log st1
              ++ [EvRun sess
                        ("CREATE (:" ++ label ++ " {"
                           ++ Spec.attribute_list (keys items) ++ "})")
                        items])%list)
  /\ (forall label clause,
         log (snd (retrieve_node_by_label_and_clause B label clause st))
         = (log st1
              ++ [EvRun sess
                        ("MATCH (n:" ++ label ++ ") WHERE " ++ clause
                           ++ " RETURN n")
                        []])%list)
  /\ (forall label id_value rel_name order,
         log (snd (retrieve_children B label id_value rel_name order st))
         = (log st1
              ++ [EvRun sess
                        ("MATCH (n:" ++ label ++ " {id:$id})-[:" ++ rel_name
                           ++ "]->(m) RETURN m")
                        [("id", id_value); ("rel_name", AStr rel_name)]])%list)
  /\ (forall label clause,
         log (snd (next_available_id B label clause st))
         = (log st1
              ++ [EvRun sess (Spec.next_id_query label clause) []])%list).
Proof.
  intros Hs. repeat split.
  - intros label id_value.
    unfold retrieve_node_by_label_and_id, bind, lift.
    rewrite Hs, format_by_id.
    pose proof (call_run_log B sess
                  ("MATCH (n:" ++ label ++ " {id:$id}) RETURN n")
                  [("id", id_value)] st1) as [Hl _].
    destruct (call_run B sess _ _ st1) as [[e|res] st2]; simpl in *; auto.
    destruct (result_single res) as [record|]; simpl; auto.
    destruct (value_items (record_getitem_int record 0)); simpl; auto.
  - intros label node_id attribute_name v.
    unfold change_single_attribute_by_id, run_query, bind, or_empty.
    rewrite Hs.
    pose proof (call_run_log B sess
                  ("MATCH (n:" ++ label ++ ") WHERE n.id = $node_id SET n."
                     ++ attribute_name ++ " = $new_attribute_value")
                  [("node_id", node_id); ("new_attribute_value", v)] st1)
      as [Hl _].
    destruct (call_run B sess _ _ st1) as [[e|res] st2]; simpl in *; auto.
  - intros label items.
    unfold create_node, run_query, bind, lift, or_empty.
    rewrite format_create, join_attribute_list, Hs.
    pose proof (call_run_log B sess
                  ("CREATE (:" ++ label ++ " {"
                     ++ Spec.attribute_list (keys items) ++ "})")
                  items st1) as [Hl _].
    destruct (call_run B sess _ _ st1) as [[e|res] st2]; simpl in *; auto.
  - intros label clause.
    unfold retrieve_node_by_label_and_clause, bind, lift.
    rewrite Hs, format_by_clause.
    pose proof (call_run_log B sess
                  ("MATCH (n:" ++ label ++ ") WHERE " ++ clause ++ " RETURN n")
                  [] st1) as [Hl _].
    destruct (call_run B sess _ _ st1) as [[e|res] st2]; simpl in *; auto.
  - intros label id_value rel_name order.
    unfold retrieve_children, bind, lift.
    rewrite Hs, format_children.
    pose proof (call_run_log B sess
                  ("MATCH (n:" ++ label ++ " {id:$id})-[:" ++ rel_name
                     ++ "]->(m) RETURN m")
                  [("id", id_value); ("rel_name", AStr rel_name)] st1)
      as [Hl _].
    destruct (call_run B sess _ _ st1) as [[e|res] st2]; simpl in *; auto.
  - intros label clause.
    pose proof (call_run_log B sess (Spec.next_id_query label clause) [] st1)
      as [Hl _].
    unfold next_available_id, query_list_single_field, bind, lift, ret,
      or_empty.
    unfold Spec.next_id_query in *.
    destruct (String.eqb clause ""); [|rewrite format_next_id];
      rewrite Hs;
      destruct (call_run B sess _ _ st1) as [[e|res] st2]; simpl in *; auto;
      destruct (list_getitem _ 0) as [?|[[| |]|]]; simpl; auto.
Qed.

Lemma label_and_id_sound (label : string) (v : Atom) (n : Node) :
  Cypher.label_and_id label v n = true -> Spec.labelled_with_id label v n.
Proof.
  unfold Cypher.label_and_id, Cypher.has_label, Cypher.prop_is,
    Spec.labelled_with_id.
  rewrite andb_true_iff, existsb_eqb_In. intros [Hl Hp]. split; [assumption|].
  destruct v; [discriminate| |];
    (destruct (dict_get "id" (node_properties n)) as [a|]; [|discriminate];
     apply atom_eqb_eq in Hp; now subst).
Qed.

Lemma atom_eqb_refl (a : Atom) : atom_eqb a a = true.
Proof.
  destruct a; simpl; auto using Z.eqb_refl, String.eqb_refl.
Qed.

Lemma label_and_id_complete (label : string) (v : Atom) (n : Node) :
  v <> ANone ->
  Spec.labelled_with_id label v n -> Cypher.label_and_id label v n = true.
Proof.
  unfold Cypher.label_and_id, Cypher.has_label, Cypher.prop_is,
    Spec.labelled_with_id.
  intros Hv [Hl Hp]. rewrite andb_true_iff, existsb_eqb_In.
  split; [assumption|]. rewrite Hp.
  destruct v; [congruence | |]; apply atom_eqb_refl.
Qed.

(** Lookup by label and id, given the answer.  Suppose a session is at
    hand, the properties of every node form a dictionary, and the server answers
    the query of [retrieve_node_by_label_and_id] for the integer
    [id_value] with the nodes that carry the label and whose [id]
    equals [id_value].  Then the method returns [None] when the graph
    has no such node, and otherwise returns the dictionary of the
    properties of such a node: the same keys with the same values. *)
Theorem retrieve_node_by_label_and_id_spec (B : Backend) (st st1 : State B)
    (sess : Session) (label : string) (id_value : Z) (w2 : World B) :
  get_session B st = (inr sess, st1) ->
  (forall n, In n (graph B (world st1)) -> wf (node_properties n)) ->
  session_run B sess ("MATCH (n:" ++ label ++ " {id:$id}) RETURN n")
              [("id", AInt id_value)] (world st1)
  = (inr (Cypher.return_nodes
            "n" (filter (Cypher.label_and_id label (AInt id_value))
                        (graph B (world st1)))),
     w2) ->
  let returned := fst (retrieve_node_by_label_and_id B label (AInt id_value) st) in
  ((forall n, In n (graph B (world st1)) ->
              ~ Spec.labelled_with_id label (AInt id_value) n) ->
   returned = inr None)
  /\ ((exists n, In n (graph B (world st1))
                 /\ Spec.labelled_with_id label (AInt id_value) n) ->
      exists n, In n (graph B (world st1))
                /\ Spec.labelled_with_id label (AInt id_value) n
                /\ returned = inr (Some (node_properties n))).
Proof.
  intros Hs Hwf Hrun returned. subst returned.
  unfold retrieve_node_by_label_and_id, bind, lift.
  rewrite Hs, format_by_id, (call_run_eq B _ _ _ _ _ _ Hrun).
  destruct (filter (Cypher.label_and_id label (AInt id_value))
                   (graph B (world st1))) as [|n ns] eqn:Hf; simpl.
  - split; [reflexivity|].
    intros [n [Hin Hm]]. exfalso.
    assert (Hin' : In n (filter (Cypher.label_and_id label (AInt id_value))
                                (graph B (world st1)))).
    { apply filter_In. split; [assumption|].
      apply label_and_id_complete; [discriminate | assumption]. }
    rewrite Hf in Hin'. contradiction.
  - assert (Hn : In n (filter (Cypher.label_and_id label (AInt id_value))
                              (graph B (world st1)))).
    { rewrite Hf. now left. }
    apply filter_In in Hn. destruct Hn as [Hin Hm].
    apply label_and_id_sound in Hm.
    split.
    + intros Hnone. exfalso. exact (Hnone n Hin Hm).
    + intros _. exists n. repeat split; try assumption; try apply Hm.
      unfold node_items. rewrite dict_of_items_wf; [reflexivity|].
      now apply Hwf.
Qed.

Lemma matchesb_iff (B : Backend) (label clause : string) (n : Node) :
  Spec.matchesb B label clause n = true <-> Spec.matches B label clause n.
Proof.
  unfold Spec.matchesb, Spec.matches, Cypher.has_label.
  rewrite andb_true_iff, orb_true_iff, existsb_eqb_In, String.eqb_eq.
  reflexivity.
Qed.

Lemma int_ids_In (z : Z) (ns : list Node) :
  In z (Cypher.int_ids ns)
  <-> exists n, In n ns /\ dict_get "id" (node_properties n) = Some (AInt z).
Proof.
  unfold Cypher.int_ids. rewrite in_flat_map. split.
  - intros [n [Hin Hz]]. exists n. split; [assumption|].
    destruct (dict_get "id" (node_properties n)) as [[|z'|s]|];
      simpl in Hz; try contradiction.
    destruct Hz as [-> | []]. reflexivity.
  - intros [n [Hin Hid]]. exists n. split; [assumption|].
    rewrite Hid. now left.
Qed.

Lemma fold_max_bounds (zs : list Z) (z : Z) :
  In (fold_left Z.max zs z) (z :: zs)
  /\ forall x, In x (z :: zs) -> (x <= fold_left Z.max zs z)%Z.
Proof.
  revert z. induction zs as [|y zs IH]; intros z; simpl.
  - split; [now left | intros x [-> | []]; lia].
  - destruct (IH (Z.max z y)) as [Hin Hle]. split.
    + destruct Hin as [Heq | Hin]; [|now right; right].
      rewrite <- Heq.
      destruct (Z.max_spec z y) as [[_ ->] | [_ ->]]; [right|]; now left.
    + intros x Hx.
      assert (Hmax : (Z.max z y <= fold_left Z.max zs (Z.max z y))%Z)
        by (apply Hle; now left).
      destruct Hx as [-> | [-> | Hx]]; [lia | lia |].
      apply Hle. now right.
Qed.

(** Next available id, given the answer.  Suppose a session is at hand and
    the server answers the aggregate query of [next_available_id] by its meaning on
    the nodes that carry the label and, for a non-empty clause, satisfy
    the clause.  Then the method returns 1 when no node matches, and as
    soon as some matching node has an integer [id] it returns 1 plus the
    largest integer [id] of the matching nodes. *)
Theorem next_available_id_spec (B : Backend) (st st1 : State B)
    (sess : Session) (label clause : string) (w2 : World B) :
  get_session B st = (inr sess, st1) ->
  session_run B sess (Spec.next_id_query label clause) [] (world st1)
  = (inr (Cypher.return_next_id
            (filter (Spec.matchesb B label clause) (graph B (world st1)))),
     w2) ->
  let returned := fst (next_available_id B label clause st) in
  let g := graph B (world st1) in
  ((forall n, In n g -> ~ Spec.matches B label clause n) ->
   returned = inr (VAtom (AInt 1)))
  /\ ((exists n z, In n g /\ Spec.matches B label clause n
                   /\ dict_get "id" (node_properties n) = Some (AInt z)) ->
      exists n m,
        In n g /\ Spec.matches B label clause n
        /\ dict_get "id" (node_properties n) = Some (AInt m)
        /\ (forall n' z, In n' g -> Spec.matches B label clause n' ->
                         dict_get "id" (node_properties n') = Some (AInt z) ->
                         (z <= m)%Z)
        /\ returned = inr (VAtom (AInt (1 + m)))).
Proof.
  intros Hs Hrun returned g. subst returned g.
  set (matched := filter (Spec.matchesb B label clause) (graph B (world st1)))
    in *.
  assert (Hret :
    fst (next_available_id B label clause st)
    = inr (match Cypher.one_plus_max (Cypher.int_ids matched) with
           | ANone => VAtom (AInt 1)
           | a => VAtom a
           end)).
  { unfold next_available_id, query_list_single_field, bind, lift, ret,
      or_empty.
    unfold Spec.next_id_query in Hrun.
    destruct (String.eqb clause "");
      [|rewrite format_next_id];
      rewrite Hs, (call_run_eq B _ _ _ _ _ _ Hrun); simpl;
      destruct (Cypher.one_plus_max (Cypher.int_ids matched)); reflexivity. }
  assert (Hmatched : forall n, In n matched <->
                               In n (graph B (world st1))
                               /\ Spec.matches B label clause n).
  { intros n. unfold matched. rewrite filter_In, matchesb_iff. reflexivity. }
  split.
  - intros Hnone. rewrite Hret.
    destruct (Cypher.int_ids matched) as [|z zs] eqn:Hids; [reflexivity|].
    exfalso.
    assert (Hz : In z (Cypher.int_ids matched)) by (rewrite Hids; now left).
    apply int_ids_In in Hz. destruct Hz as [n [Hin _]].
    apply Hmatched in Hin. destruct Hin as [Hin Hm]. exact (Hnone n Hin Hm).
  - intros [n0 [z0 [Hin0 [Hm0 Hid0]]]]. rewrite Hret.
    assert (Hz0 : In z0 (Cypher.int_ids matched)).
    { apply int_ids_In. exists n0. split; [|assumption].
      apply Hmatched. auto. }
    destruct (Cypher.int_ids matched) as [|z zs] eqn:Hids; [contradiction|].
    simpl. destruct (fold_max_bounds zs z) as [Hin Hle].
    rewrite <- Hids in Hin.
    apply int_ids_In in Hin. destruct Hin as [n [Hn Hid]].
    apply Hmatched in Hn. destruct Hn as [Hn Hm].
    exists n, (fold_left Z.max zs z). repeat split; try assumption; try apply Hm.
    intros n' z' Hin' Hm' Hid'. apply Hle. rewrite <- Hids.
    apply int_ids_In. exists n'. split; [|assumption].
    apply Hmatched. auto.
Qed.

Lemma nodes_as_dicts_nodes (records : list DbRecord) (nodes : list Node) :
  Forall2 (fun r n => record_getitem_int r 0 = VNode n) records nodes ->
  Forall (fun n => wf (node_properties n)) nodes ->
  nodes_as_dicts records = inr (map node_properties nodes).
Proof.
  induction 1 as [|r n records nodes Hr _ IH]; intros Hwf; simpl.
  - reflexivity.
  - inversion Hwf as [|? ? Hn Hrest]; subst.
    rewrite Hr. simpl. rewrite (IH Hrest).
    unfold node_items. now rewrite dict_of_items_wf.
Qed.

(** C4.  Reshaping to dictionaries.  With a session at hand:
    when the driver returns records that each hold a node,
    [retrieve_node_by_label_and_clause] returns, in the order of the
    records, the dictionary of the properties of each node; when the
    driver returns any records with distinct field names,
    [query_list_multiple_fields_dict] returns, in the order of the
    records, one dictionary per record whose keys are the field names of
    the record and whose values are the values of the fields.  An empty
    driver result gives the empty list. *)
Theorem reshape_to_dictionaries (B : Backend) (st st1 : State B)
    (sess : Session) :
  get_session B st = (inr sess, st1) ->
  (forall label clause records nodes w2,
      session_run B sess
                  ("MATCH (n:" ++ label ++ ") WHERE " ++ clause ++ " RETURN n")
                  [] (world st1)
      = (inr records, w2) ->
      Forall2 (fun r n => record_getitem_int r 0 = VNode n) records nodes ->
      Forall (fun n => wf (node_properties n)) nodes ->
      exists ds,
        fst (retrieve_node_by_label_and_clause B label clause st) = inr ds
        /\ List.length ds = List.length records
        /\ (forall i n, nth_error nodes i = Some n ->
                        nth_error ds i = Some (node_properties n))
        /\ (records = [] -> ds = []))
  /\ (forall cypher cypher_dict records w2,
         session_run B sess cypher (or_empty cypher_dict) (world st1)
         = (inr records, w2) ->
         Forall (fun r : DbRecord => wf r) records ->
         exists ds,
           fst (query_list_multiple_fields_dict B cypher cypher_dict st)
           = inr ds
           /\ List.length ds = List.length records
           /\ (forall i r, nth_error records i = Some r ->
                           exists d, nth_error ds i = Some d
                                     /\ keys d = record_keys r
                                     /\ forall k v, In (k, v) r ->
                                                    dict_get k d = Some v)
           /\ (records = [] -> ds = [])).
Proof.
  intros Hs. split.
  - intros label clause records nodes w2 Hrun Hnodes Hwf.
    exists (map node_properties nodes).
    unfold retrieve_node_by_label_and_clause, bind, lift.
    rewrite Hs, format_by_clause, (call_run_eq B _ _ _ _ _ _ Hrun).
    simpl. rewrite (nodes_as_dicts_nodes records nodes Hnodes Hwf).
    repeat split.
    + rewrite length_map. symmetry. exact (Forall2_length Hnodes).
    + intros i n Hi. now rewrite nth_error_map, Hi.
    + intros ->. inversion Hnodes. reflexivity.
  - intros cypher cypher_dict records w2 Hrun Hwf.
    exists (map dict_of_record records).
    unfold query_list_multiple_fields_dict, bind, ret.
    rewrite Hs, (call_run_eq B _ _ _ _ _ _ Hrun). simpl.
    repeat split.
    + apply length_map.
    + intros i r Hi. exists (dict_of_record r).
      assert (Hr : wf r).
      { rewrite Forall_forall in Hwf. apply Hwf.
        eapply nth_error_In; eassumption. }
      rewrite nth_error_map, Hi. simpl.
      rewrite (dict_of_record_wf r Hr). repeat split.
      intros k v Hin. now apply In_dict_get.
    + intros ->. reflexivity.
Qed.

(** C5.  Reshaping to tuples and to single values.  With a session at
    hand and the driver returning [records] for the query:
    [query_list_multiple_fields] returns, in the order of the records,
    one tuple per record with the values of its fields in field order;
    [query_list_single_field] returns, in the order of the records, the
    value each record binds to the named field ([None] where a record
    has no such field). *)
Theorem reshape_to_tuples (B : Backend) (st st1 : State B) (sess : Session)
    (cypher : string) (cypher_dict : option (Dict Atom))
    (records : list DbRecord) (w2 : World B) :
  get_session B st = (inr sess, st1) ->
  session_run B sess cypher (or_empty cypher_dict) (world st1)
  = (inr records, w2) ->
  (exists ts,
      fst (query_list_multiple_fields B cypher cypher_dict st) = inr ts
      /\ List.length ts = List.length records
      /\ forall i r, nth_error records i = Some r ->
                     exists t, nth_error ts i = Some t
                               /\ List.length t = List.length r
                               /\ forall j k v, nth_error r j = Some (k, v) ->
                                                nth_error t j = Some v)
  /\ (forall field_name,
         exists vs,
           fst (query_list_single_field B field_name cypher cypher_dict st)
           = inr vs
           /\ List.length vs = List.length records
           /\ forall i r, nth_error records i = Some r ->
                          nth_error vs i
                          = Some (match dict_get field_name r with
                                  | Some v => v
                                  | None => VNone
                                  end)).
Proof.
  intros Hs Hrun. split.
  - exists (map record_tuple records).
    unfold query_list_multiple_fields, bind, ret.
    rewrite Hs, (call_run_eq B _ _ _ _ _ _ Hrun). simpl.
    repeat split.
    + apply length_map.
    + intros i r Hi. exists (record_tuple r).
      rewrite nth_error_map, Hi. unfold record_tuple. repeat split.
      * apply length_map.
      * intros j k v Hj. now rewrite nth_error_map, Hj.
  - intros field_name. exists (result_value records field_name).
    unfold query_list_single_field, bind, ret.
    rewrite Hs, (call_run_eq B _ _ _ _ _ _ Hrun). simpl.
    repeat split.
    + unfold result_value. apply length_map.
    + intros i r Hi. now apply result_value_nth.
Qed.

(** C10.  Element 0 of the aggregate result.  With a session at hand and
    the driver returning [records] for the aggregate query:
    when there is at least one record, [next_available_id] returns a
    value; when there is none, it raises [IndexError]. *)
Theorem next_available_id_first_element (B : Backend) (st st1 : State B)
    (sess : Session) (label clause : string) (records : list DbRecord)
    (w2 : World B) :
  get_session B st = (inr sess, st1) ->
  session_run B sess (Spec.next_id_query label clause) [] (world st1)
  = (inr records, w2) ->
  (records <> [] ->
   exists v, fst (next_available_id B label clause st) = inr v)
  /\ (records = [] ->
      fst (next_available_id B label clause st)
      = inl (IndexError "list index out of range")).
Proof.
  intros Hs Hrun.
  assert (Hret :
    fst (next_available_id B label clause st)
    = match list_getitem (result_value records "max_value") 0 with
      | inl e => inl e
      | inr (VAtom ANone) => inr (VAtom (AInt 1))
      | inr v => inr v
      end).
  { unfold next_available_id, query_list_single_field, bind, lift, ret,
      or_empty.
    unfold Spec.next_id_query in Hrun.
    destruct (String.eqb clause "");
      [|rewrite format_next_id];
      rewrite Hs, (call_run_eq B _ _ _ _ _ _ Hrun); simpl;
      destruct (list_getitem (result_value records "max_value") 0)
        as [e|[[| |]|]]; reflexivity. }
  rewrite Hret. split.
  - destruct records as [|r records]; [congruence|]. intros _.
    unfold list_getitem. simpl.
    destruct (record_value r "max_value" VNone) as [[| |]|]; eauto.
  - intros ->. reflexivity.
Qed.

Lemma set_property_frame (k : string) (v : Atom) (n : Node) :
  node_identity (Cypher.set_property k v n) = node_identity n
  /\ node_labels (Cypher.set_property k v n) = node_labels n
  /\ forall k', k' <> k ->
                dict_get k' (node_properties (Cypher.set_property k v n))
                = dict_get k' (node_properties n).
Proof.
  repeat split. intros k' Hne. unfold Cypher.set_property. simpl.
  destruct v; auto using dict_get_del_other, dict_get_set_other.
Qed.

(** Changing a single attribute, given the execution.  Suppose a session
    is at hand and the server executes the query of [change_single_attribute_by_id] by
    its meaning: [SET] on the nodes that carry the label and whose [id]
    equals [node_id].  Then the method returns [None] after a single
    [run] call, the graph keeps its nodes in place, every node keeps its
    identity, its labels and all its attributes other than the named
    one, a node that does not carry the label with that [id] is left as
    it was, and a node that does gets the new value under the named
    attribute. *)
Theorem change_single_attribute_by_id_frame (B : Backend) (st st1 : State B)
    (sess : Session) (label : string) (node_id : Atom)
    (attribute_name : string) (new_attribute_value : Atom)
    (res : Result) (w2 : World B) :
  get_session B st = (inr sess, st1) ->
  session_run B sess
              ("MATCH (n:" ++ label ++ ") WHERE n.id = $node_id SET n."
                 ++ attribute_name ++ " = $new_attribute_value")
              [("node_id", node_id); ("new_attribute_value", new_attribute_value)]
              (world st1)
  = (inr res, w2) ->
  graph B w2
  = Cypher.set_where (Cypher.label_and_id label node_id)
                     attribute_name new_attribute_value
                     (graph B (world st1)) ->
  let outcome :=
    change_single_attribute_by_id
      B label node_id attribute_name new_attribute_value st in
  fst outcome = inr tt
  /\ new_events st1 (snd outcome)
     = [EvRun sess
              ("MATCH (n:" ++ label ++ ") WHERE n.id = $node_id SET n."
                 ++ attribute_name ++ " = $new_attribute_value")
              [("node_id", node_id);
               ("new_attribute_value", new_attribute_value)]]
  /\ Forall2
       (fun before after =>
          node_identity after = node_identity before
          /\ node_labels after = node_labels before
          /\ (forall k, k <> attribute_name ->
                        dict_get k (node_properties after)
                        = dict_get k (node_properties before))
          /\ (~ Spec.labelled_with_id label node_id before -> after = before)
          /\ (Spec.labelled_with_id label node_id before ->
              node_id <> ANone -> new_attribute_value <> ANone ->
              dict_get attribute_name (node_properties after)
              = Some new_attribute_value))
       (graph B (world st1)) (graph B (world (snd outcome))).
Proof.
  intros Hs Hrun Hgraph outcome. subst outcome.
  unfold change_single_attribute_by_id, run_query, bind, ret, or_empty.
  rewrite Hs, (call_run_eq B _ _ _ _ _ _ Hrun). simpl.
  split; [reflexivity|]. split.
  - unfold new_events. simpl. rewrite skipn_app, skipn_all, Nat.sub_diag.
    reflexivity.
  - rewrite Hgraph. clear Hgraph. unfold Cypher.set_where.
    induction (graph B (world st1)) as [|n g IH]; simpl; constructor; auto.
    destruct (Cypher.label_and_id label node_id n) eqn:Hsel.
    + destruct (set_property_frame attribute_name new_attribute_value n)
        as [Hi [Hl Hp]].
      repeat split; auto.
      * intros Hno. exfalso. apply Hno. now apply label_and_id_sound.
      * intros _ _ Hv. unfold Cypher.set_property. simpl.
        destruct new_attribute_value; [congruence | |]; apply dict_get_set_same.
    + repeat split; auto.
      intros Hm Hid _. apply label_and_id_complete in Hm; [congruence | assumption].
Qed.

Lemma snd_exec (B : Backend) {A} (m : M B A) (st : State B) :
  snd (exec B m st) = snd (m st).
Proof.
  unfold exec. destruct (m st) as [[e|a] st']; reflexivity.
Qed.

Lemma new_events_app (B : Backend) (st st' : State B) (evs : list Event) :
  log st' = (log st ++ evs)%list -> new_events st st' = evs.
Proof.
  intros H. unfold new_events. rewrite H.
  rewrite skipn_app, skipn_all, Nat.sub_diag. reflexivity.
Qed.

Ltac after_run :=
  match goal with
  | |- context [call_run ?B ?s ?q ?p ?st] =>
      let Hl := fresh "Hl" in
      let Hf := fresh "Hf" in
      destruct (call_run_log B s q p st) as [Hl Hf];
      destruct (call_run B s q p st) as [[?|?] ?]; simpl in *;
      exists q, p
  end.

(** A data call that obtains the session [s] makes one [run] call on
    it, and nothing else. *)
Lemma data_call_trace (B : Backend) (c : Call) (st st1 : State B) (s : Session) :
  is_data_call c = true ->
  get_session B st = (inr s, st1) ->
  exists q p,
    self (snd (invoke B c st)) = self st1
    /\ log (snd (invoke B c st)) = (log st1 ++ [EvRun s q p])%list.
Proof.
  intros Hc Hs.
  destruct c; try discriminate; simpl; rewrite snd_exec.
  - unfold retrieve_node_by_label_and_id, bind, lift.
    rewrite Hs, format_by_id. after_run; auto.
    destruct (result_single _); simpl; auto.
    destruct (value_items _); simpl; auto.
  - unfold retrieve_node_by_label_and_clause, bind, lift.
    rewrite Hs, format_by_clause. after_run; auto.
  - unfold retrieve_children, bind, lift.
    rewrite Hs, format_children. after_run; auto.
  - unfold query_list_single_field, bind, ret.
    rewrite Hs. after_run; auto.
  - unfold query_list_multiple_fields_dict, bind, ret.
    rewrite Hs. after_run; auto.
  - unfold query_list_multiple_fields, bind, ret.
    rewrite Hs. after_run; auto.
  - unfold next_available_id, query_list_single_field, bind, lift, ret.
    destruct (String.eqb clause ""); [|rewrite format_next_id];
      rewrite Hs; after_run; auto;
      destruct (list_getitem _ 0) as [?|[[| |]|]]; simpl; auto.
  - unfold create_node, run_query, bind, lift, ret.
    rewrite format_create, Hs. after_run; auto.
  - unfold change_single_attribute_by_id, run_query, bind, ret.
    rewrite Hs. after_run; auto.
  - unfold run_query, bind.
    rewrite Hs. after_run; auto.
Qed.

(** *** The field [_driver] *)

Section DriverField.
Variable B : Backend.

Lemma keeps_ret {A} (a : A) : keeps_driver (ret B a).
Proof. intros st. reflexivity. Qed.

Lemma keeps_raise {A} (e : Exn) : keeps_driver (@raise B A e).
Proof. intros st. reflexivity. Qed.

Lemma keeps_lift {A} (r : result A) : keeps_driver (lift B r).
Proof. intros st. reflexivity. Qed.

Lemma keeps_get_self : keeps_driver (get_self B).
Proof. intros st. reflexivity. Qed.

Lemma keeps_set_current_session (s : option Session) :
  keeps_driver (set_current_session B s).
Proof. intros st. reflexivity. Qed.

Lemma keeps_external {A} (ev : Event)
    (call : World B -> (string + A) * World B) :
  keeps_driver (external B ev call).
Proof.
  intros st. unfold external. destruct (call (world st)). reflexivity.
Qed.

Lemma keeps_bind {A C} (m : M B A) (k : A -> M B C) :
  keeps_driver m -> (forall a, keeps_driver (k a)) ->
  keeps_driver (bind B m k).
Proof.
  intros Hm Hk st. unfold bind. specialize (Hm st).
  destruct (m st) as [[e|a] st']; simpl in *; [assumption|].
  now rewrite Hk.
Qed.

Ltac keeps :=
  repeat first
    [ apply keeps_ret | apply keeps_raise | apply keeps_lift
    | apply keeps_get_self | apply keeps_set_current_session
    | apply keeps_external
    | apply keeps_bind; [|intros ?]
    | match goal with
      | |- keeps_driver (match ?x with _ => _ end) => destruct x
      | |- keeps_driver (if ?x then _ else _) => destruct x
      end ].

Lemma keeps_close : keeps_driver (close B).
Proof. unfold close, call_close. keeps. Qed.

Lemma keeps_new_session : keeps_driver (new_session B).
Proof. unfold new_session, call_session. keeps. Qed.

Lemma keeps_get_session : keeps_driver (get_session B).
Proof. unfold get_session. keeps. Qed.

Lemma keeps_call_run (s : Session) (q : string) (p : Dict Atom) :
  keeps_driver (call_run B s q p).
Proof. unfold call_run. keeps. Qed.

Lemma keeps_run_query (q : string) (d : option (Dict Atom)) :
  keeps_driver (run_query B q d).
Proof.
  unfold run_query. apply keeps_bind;
    [apply keeps_get_session | intros; apply keeps_call_run].
Qed.

Lemma keeps_query_list_single_field (f q : string) (d : option (Dict Atom)) :
  keeps_driver (query_list_single_field B f q d).
Proof.
  unfold query_list_single_field.
  apply keeps_bind; [apply keeps_get_session | intros].
  apply keeps_bind; [apply keeps_call_run | intros]. keeps.
Qed.

(** No method assigns [_driver]. *)
Lemma invoke_keeps_driver (c : Call) (st : State B) :
  _driver (self (snd (invoke B c st))) = _driver (self st).
Proof.
  destruct c; unfold invoke; rewrite snd_exec.
  - reflexivity.
  - apply keeps_close.
  - apply keeps_new_session.
  - apply keeps_get_session.
  - unfold retrieve_node_by_label_and_id.
    apply keeps_bind; [apply keeps_get_session | intros].
    apply keeps_bind; [apply keeps_lift | intros].
    apply keeps_bind; [apply keeps_call_run | intros]. keeps.
  - unfold retrieve_node_by_label_and_clause.
    apply keeps_bind; [apply keeps_get_session | intros].
    apply keeps_bind; [apply keeps_lift | intros].
    apply keeps_bind; [apply keeps_call_run | intros]. keeps.
  - unfold retrieve_children.
    apply keeps_bind; [apply keeps_get_session | intros].
    apply keeps_bind; [apply keeps_lift | intros].
    apply keeps_bind; [apply keeps_call_run | intros]. keeps.
  - apply keeps_query_list_single_field.
  - unfold query_list_multiple_fields_dict.
    apply keeps_bind; [apply keeps_get_session | intros].
    apply keeps_bind; [apply keeps_call_run | intros]. keeps.
  - unfold query_list_multiple_fields.
    apply keeps_bind; [apply keeps_get_session | intros].
    apply keeps_bind; [apply keeps_call_run | intros]. keeps.
  - unfold next_available_id.
    apply keeps_bind; [keeps | intros].
    apply keeps_bind; [apply keeps_query_list_single_field | intros]. keeps.
  - unfold create_node.
    apply keeps_bind; [apply keeps_lift | intros].
    apply keeps_bind; [apply keeps_run_query | intros]. keeps.
  - unfold change_single_attribute_by_id.
    apply keeps_bind; [apply keeps_run_query | intros]. keeps.
  - apply keeps_run_query.
  - unfold query_NOT_IN_USE. keeps.
Qed.

Lemma invoke_all_keeps_driver (cs : list Call) (st : State B) :
  _driver (self (invoke_all B cs st)) = _driver (self st).
Proof.
  revert st. induction cs as [|c cs IH]; intros st; simpl; [reflexivity|].
  now rewrite IH, invoke_keeps_driver.
Qed.

(** [new_session] takes its [raise] branch only with [_driver] unset. *)
Lemma new_session_not_set (st : State B) :
  fst (new_session B st) = inl (Exception driver_not_set) ->
  _driver (self st) = None.
Proof.
  unfold new_session, bind, get_self, call_session, external,
    set_current_session, ret, raise.
  destruct (_driver (self st)) as [d|]; [|reflexivity].
  destruct (driver_session B d (world st)) as [[msg|s] w]; simpl;
    discriminate.
Qed.

End DriverField.

(** C8.  The driver stays set.  After a constructor call that did not
    raise, [_driver] is not [None]; whatever methods are called
    afterwards, in any order and whether they return or raise, the field
    keeps its value, and [new_session] never raises the exception of its
    [_driver is None] branch. *)
Theorem driver_stays_set (B : Backend) (url user pwd : string)
    (w : World B) (lg : list Event) (st : State B) (calls : list Call) :
  __init__ B url user pwd w lg = (inr tt, st) ->
  _driver (self st) <> None
  /\ _driver (self (invoke_all B calls st)) = _driver (self st)
  /\ _driver (self (snd (close B (invoke_all B calls st)))) <> None
  /\ fst (new_session B (invoke_all B calls st))
     <> inl (Exception driver_not_set).
Proof.
  intros Hinit.
  assert (Hset : _driver (self st) <> None).
  { unfold __init__ in Hinit.
    destruct (driver_new B url user pwd w) as [[msg|d] w'];
      [discriminate|].
    injection Hinit as <-. simpl. discriminate. }
  split; [assumption|]. split; [apply invoke_all_keeps_driver|]. split.
  - rewrite keeps_close, invoke_all_keeps_driver. assumption.
  - intros Hraise. apply new_session_not_set in Hraise.
    rewrite invoke_all_keeps_driver in Hraise. contradiction.
Qed.

(** *** The field [_current_session] *)

(** [close] forwards to the driver, when there is one, and assigns no
    field. *)
Lemma close_frame (B : Backend) (st : State B) :
  self (snd (close B st)) = self st
  /\ new_events st (snd (close B st))
     = match _driver (self st) with
       | Some d => [EvDriverClose d]
       | None => []
       end.
Proof.
  unfold close, bind, get_self, call_close, external, ret.
  destruct (_driver (self st)) as [d|]; simpl.
  - destruct (driver_close B d (world st)) as [r w]. simpl. split; [reflexivity|].
    now apply new_events_app.
  - split; [reflexivity|]. apply new_events_app. now rewrite app_nil_r.
Qed.

(** C9.  After [close].  [close] makes no driver call other than the
    driver's own [close] and leaves [_driver] and [_current_session] as
    they were.  So on an instance that holds a session, [get_session]
    after [close] still returns the stored session without asking the
    driver, and every data operation after [close] sends its query on
    that session: the class raises nothing of its own. *)
Theorem close_keeps_session (B : Backend) (st : State B) (s : Session) :
  _current_session (self st) = Some s ->
  let closed := snd (close B st) in
  _driver (self closed) = _driver (self st)
  /\ _current_session (self closed) = Some s
  /\ new_events st closed
     = match _driver (self st) with
       | Some d => [EvDriverClose d]
       | None => []
       end
  /\ get_session B closed = (inr s, closed)
  /\ forall c, is_data_call c = true ->
               exists q p,
                 self (snd (invoke B c closed)) = self closed
                 /\ new_events closed (snd (invoke B c closed))
                    = [EvRun s q p].
Proof.
  intros Hs closed. subst closed.
  destruct (close_frame B st) as [Hself Hev].
  assert (Hs' : _current_session (self (snd (close B st))) = Some s)
    by now rewrite Hself.
  repeat split.
  - now rewrite Hself.
  - assumption.
  - assumption.
  - now apply get_session_stored.
  - intros c Hc.
    destruct (data_call_trace B c _ _ s Hc (get_session_stored B _ s Hs'))
      as [q [p [Hf Hl]]].
    exists q, p. split; [assumption|]. now apply new_events_app.
Qed.

(** C6, as amended.  No result is kept: a data operation sends its query
    to the driver with one [run] call every time it is invoked.  What the
    instance does keep is the session.  With a session stored, a data
    operation runs on it, asks the driver for no other and leaves the
    fields as they are.  With none stored, it asks the driver of the
    instance for a session, stores it in [_current_session] and runs on
    it. *)
Theorem session_is_stored_and_reused (B : Backend) (st : State B) (c : Call) :
  is_data_call c = true ->
  (forall s,
      _current_session (self st) = Some s ->
      exists q p,
        self (snd (invoke B c st)) = self st
        /\ new_events st (snd (invoke B c st)) = [EvRun s q p])
  /\ (forall d s w,
         _current_session (self st) = None ->
         _driver (self st) = Some d ->
         driver_session B d (world st) = (inr s, w) ->
         exists q p,
           self (snd (invoke B c st))
           = {| _driver := Some d; _current_session := Some s |}
           /\ new_events st (snd (invoke B c st))
              = [EvSession d; EvRun s q p]).
Proof.
  intros Hc. split.
  - intros s Hs.
    destruct (data_call_trace B c _ _ s Hc (get_session_stored B _ s Hs))
      as [q [p [Hf Hl]]].
    exists q, p. split; [assumption|]. now apply new_events_app.
  - intros d s w Hs Hd Hw.
    destruct (data_call_trace B c _ _ s Hc (get_session_fresh B _ d s w Hs Hd Hw))
      as [q [p [Hf Hl]]].
    exists q, p. simpl in *. split; [assumption|].
    apply new_events_app. rewrite Hl. now rewrite <- app_assoc.
Qed.

End Properties.

(* ================================================================== *)
(** ** The properties on the in-memory backend *)
(* ================================================================== *)

Module Examples.
Import Py Neo4j Liaison PyFacts MemDriver.

(** The properties of every sample node form a dictionary. *)
Lemma sample_graph_wf :
  forall n, In n sample_graph -> wf (node_properties n).
Proof.
  intros n Hin. apply wfb_wf.
  repeat (destruct Hin as [<- | Hin]; [reflexivity|]). contradiction.
Defined.

(** The queries sent for a lookup by id and for a node creation. *)
Lemma query_construction_witness :
  get_session backend connected = (inr 0, with_session)
  /\ log (snd (retrieve_node_by_label_and_id
                 backend "OC_subject" (AInt 49) connected))
     = [EvDriver "neo4j://localhost:7687" "neo4j" "pwd";
        EvSession 0;
        EvRun 0 "MATCH (n:OC_subject {id:$id}) RETURN n" [("id", AInt 49)]]
  /\ log (snd (create_node backend "OC_test"
                           [("id", AInt 5); ("gender", AStr "M")] connected))
     = [EvDriver "neo4j://localhost:7687" "neo4j" "pwd";
        EvSession 0;
        EvRun 0 "CREATE (:OC_test {id: $id, gender: $gender})"
              [("id", AInt 5); ("gender", AStr "M")]].
Proof.
  pose proof (Properties.query_construction
                backend connected with_session 0 eq_refl) as [H1 [_ [H3 _]]].
  split; [reflexivity|]. split.
  - exact (H1 "OC_subject" (AInt 49)).
  - exact (H3 "OC_test" [("id", AInt 5); ("gender", AStr "M")]).
Defined.

(** The next id among the male subjects. *)
Lemma next_available_id_spec_witness :
  get_session backend connected = (inr 0, with_session)
  /\ session_run backend 0 (Spec.next_id_query "OC_subject" "gender:'M'") []
                 (world with_session)
     = (inr (Cypher.return_next_id
               (filter (Spec.matchesb backend "OC_subject" "gender:'M'")
                       (graph backend (world with_session)))),
        world with_session)
  /\ exists n m,
      In n sample_graph
      /\ Spec.matches backend "OC_subject" "gender:'M'" n
      /\ dict_get "id" (node_properties n) = Some (AInt m)
      /\ (forall n' z, In n' sample_graph ->
                       Spec.matches backend "OC_subject" "gender:'M'" n' ->
                       dict_get "id" (node_properties n') = Some (AInt z) ->
                       (z <= m)%Z)
      /\ fst (next_available_id backend "OC_subject" "gender:'M'" connected)
         = inr (VAtom (AInt (1 + m))).
Proof.
  split; [reflexivity|]. split; [reflexivity|].
  apply (proj2 (Properties.next_available_id_spec
                  backend connected with_session 0 "OC_subject" "gender:'M'"
                  (world with_session) eq_refl eq_refl)).
  exists bob, 49%Z. split; [right; now left|]. split; [|reflexivity].
  split; [now left | right; reflexivity].
Defined.

(** A lookup that finds nothing and one that finds the subject 49. *)
Lemma retrieve_node_by_label_and_id_spec_witness :
  get_session backend connected = (inr 0, with_session)
  /\ session_run backend 0 "MATCH (n:OC_subject {id:$id}) RETURN n"
                 [("id", AInt 49)] (world with_session)
     = (inr (Cypher.return_nodes
               "n" (filter (Cypher.label_and_id "OC_subject" (AInt 49))
                           sample_graph)),
        world with_session)
  /\ fst (retrieve_node_by_label_and_id backend "OC_subject" (AInt 50) connected)
     = inr None
  /\ exists n,
      In n sample_graph
      /\ Spec.labelled_with_id "OC_subject" (AInt 49) n
      /\ fst (retrieve_node_by_label_and_id
                backend "OC_subject" (AInt 49) connected)
         = inr (Some (node_properties n)).
Proof.
  split; [reflexivity|]. split; [reflexivity|]. split.
  - apply (proj1 (Properties.retrieve_node_by_label_and_id_spec
                    backend connected with_session 0 "OC_subject" 50
                    (world with_session) eq_refl sample_graph_wf eq_refl)).
    intros n Hin [_ Hid].
    repeat (destruct Hin as [<- | Hin]; [discriminate Hid|]). contradiction.
  - apply (proj2 (Properties.retrieve_node_by_label_and_id_spec
                    backend connected with_session 0 "OC_subject" 49
                    (world with_session) eq_refl sample_graph_wf eq_refl)).
    exists bob. split; [right; now left|]. split; [now left | reflexivity].
Defined.

Definition by_gender : string := "MATCH (n:OC_subject) WHERE n.gender = 'M' RETURN n".
Definition two_fields : string :=
  "MATCH (n:OC_subject) RETURN n.id AS id, n.gender AS g".
Definition two_fields_records : list DbRecord :=
  [[("id", VAtom (AInt 110)); ("g", VAtom (AStr "M"))];
   [("id", VAtom (AInt 49)); ("g", VAtom (AStr "M"))];
   [("id", VAtom (AInt 62)); ("g", VAtom (AStr "F"))]].

(** Two subjects as dictionaries, three records as dictionaries. *)
Lemma reshape_to_dictionaries_witness :
  get_session backend connected = (inr 0, with_session)
  /\ session_run backend 0 by_gender [] (world with_session)
     = (inr (Cypher.return_nodes "n" [alice; bob]), world with_session)
  /\ session_run backend 0 two_fields (or_empty None) (world with_session)
     = (inr two_fields_records, world with_session)
  /\ (exists ds,
        fst (retrieve_node_by_label_and_clause
               backend "OC_subject" "n.gender = 'M'" connected) = inr ds
        /\ List.length ds = 2
        /\ (forall i n, nth_error [alice; bob] i = Some n ->
                        nth_error ds i = Some (node_properties n))
        /\ (Cypher.return_nodes "n" [alice; bob] = [] -> ds = []))
  /\ (exists ds,
        fst (query_list_multiple_fields_dict backend two_fields None connected)
        = inr ds
        /\ List.length ds = 3
        /\ (forall i r, nth_error two_fields_records i = Some r ->
                        exists d, nth_error ds i = Some d
                                  /\ keys d = record_keys r
                                  /\ forall k v, In (k, v) r ->
                                                 dict_get k d = Some v)
        /\ (two_fields_records = [] -> ds = [])).
Proof.
  pose proof (Properties.reshape_to_dictionaries
                backend connected with_session 0 eq_refl) as [H1 H2].
  split; [reflexivity|]. split; [reflexivity|]. split; [reflexivity|]. split.
  - apply (H1 "OC_subject" "n.gender = 'M'"
              (Cypher.return_nodes "n" [alice; bob]) [alice; bob]
              (world with_session) eq_refl).
    + repeat constructor.
    + repeat (apply Forall_cons; [apply sample_graph_wf; simpl; auto|]).
      apply Forall_nil.
  - apply (H2 two_fields None two_fields_records (world with_session) eq_refl).
    repeat (apply Forall_cons; [apply wfb_wf; reflexivity|]).
    apply Forall_nil.
Defined.

(** Three records as tuples and as the values of one field. *)
Lemma reshape_to_tuples_witness :
  get_session backend connected = (inr 0, with_session)
  /\ session_run backend 0 two_fields (or_empty None) (world with_session)
     = (inr two_fields_records, world with_session)
  /\ (exists ts,
        fst (query_list_multiple_fields backend two_fields None connected)
        = inr ts
        /\ List.length ts = 3
        /\ forall i r, nth_error two_fields_records i = Some r ->
                       exists t, nth_error ts i = Some t
                                 /\ List.length t = List.length r
                                 /\ forall j k v, nth_error r j = Some (k, v) ->
                                                  nth_error t j = Some v)
  /\ (exists vs,
        fst (query_list_single_field backend "g" two_fields None connected)
        = inr vs
        /\ List.length vs = 3
        /\ forall i r, nth_error two_fields_records i = Some r ->
                       nth_error vs i
                       = Some (match dict_get "g" r with
                               | Some v => v
                               | None => VNone
                               end)).
Proof.
  pose proof (Properties.reshape_to_tuples
                backend connected with_session 0 two_fields None
                two_fields_records (world with_session) eq_refl eq_refl)
    as [H1 H2].
  split; [reflexivity|]. split; [reflexivity|]. split.
  - exact H1.
  - exact (H2 "g").
Defined.

(** The aggregate query answers with one record. *)
Lemma next_available_id_first_element_witness :
  get_session backend connected = (inr 0, with_session)
  /\ session_run backend 0 (Spec.next_id_query "OC_subject" "") []
                 (world with_session)
     = (inr [[("max_value", VAtom (AInt 111))]], world with_session)
  /\ [[("max_value", VAtom (AInt 111))]] <> []
  /\ exists v, fst (next_available_id backend "OC_subject" "" connected) = inr v.
Proof.
  assert (Hne : [[("max_value", VAtom (AInt 111))]] <> @nil DbRecord)
    by discriminate.
  split; [reflexivity|]. split; [reflexivity|]. split; [exact Hne|].
  exact (proj1 (Properties.next_available_id_first_element
                  backend connected with_session 0 "OC_subject" ""
                  [[("max_value", VAtom (AInt 111))]] (world with_session)
                  eq_refl eq_refl) Hne).
Defined.

(** Setting the attribute [gender] of the subject 49. *)
Lemma change_single_attribute_by_id_frame_witness :
  get_session backend connected = (inr 0, with_session)
  /\ session_run backend 0
       "MATCH (n:OC_subject) WHERE n.id = $node_id SET n.gender = $new_attribute_value"
       [("node_id", AInt 49); ("new_attribute_value", AStr "X")]
       (world with_session)
     = (inr [], world_after_change)
  /\ graph backend world_after_change
     = Cypher.set_where (Cypher.label_and_id "OC_subject" (AInt 49))
                        "gender" (AStr "X")
                        (graph backend (world with_session))
  /\ fst (change_single_attribute_by_id
            backend "OC_subject" (AInt 49) "gender" (AStr "X") connected)
     = inr tt.
Proof.
  split; [reflexivity|]. split; [reflexivity|]. split; [reflexivity|].
  exact (proj1 (Properties.change_single_attribute_by_id_frame
                  backend connected with_session 0 "OC_subject" (AInt 49)
                  "gender" (AStr "X") [] world_after_change
                  eq_refl eq_refl eq_refl)).
Defined.

Definition some_calls : list Call :=
  [CallRunQuery "MATCH (n:OC_subject) RETURN n" None;
   CallClose;
   CallNextAvailableId "OC_subject" "";
   CallQueryNotInUse "MATCH (n) RETURN n" None;
   CallNewSession].

(** A sequence of calls, with a [close] in the middle. *)
Lemma driver_stays_set_witness :
  __init__ backend "neo4j://localhost:7687" "neo4j" "pwd" sample_world []
  = (inr tt, connected)
  /\ _driver (self connected) <> None
  /\ _driver (self (invoke_all backend some_calls connected))
     = _driver (self connected)
  /\ _driver (self (snd (close backend (invoke_all backend some_calls connected))))
     <> None
  /\ fst (new_session backend (invoke_all backend some_calls connected))
     <> inl (Exception driver_not_set).
Proof.
  split; [reflexivity|].
  exact (Properties.driver_stays_set
           backend "neo4j://localhost:7687" "neo4j" "pwd" sample_world []
           connected some_calls eq_refl).
Defined.

(** A query for the next id right after [close]. *)
Lemma close_keeps_session_witness :
  _current_session (self with_session) = Some 0
  /\ get_session backend (snd (close backend with_session))
     = (inr 0, snd (close backend with_session))
  /\ exists q p,
      new_events (snd (close backend with_session))
                 (snd (invoke backend (CallNextAvailableId "OC_subject" "")
                              (snd (close backend with_session))))
      = [EvRun 0 q p].
Proof.
  pose proof (Properties.close_keeps_session backend with_session 0 eq_refl)
    as [_ [_ [_ [Hg Hdata]]]].
  split; [reflexivity|]. split; [exact Hg|].
  destruct (Hdata (CallNextAvailableId "OC_subject" "") eq_refl)
    as [q [p [_ Hev]]].
  exists q, p. exact Hev.
Defined.

Definition all_subjects : Call :=
  CallRunQuery "MATCH (n:OC_subject) RETURN n" None.

(** The same query on a fresh instance and on one holding a session. *)
Lemma session_is_stored_and_reused_witness :
  is_data_call all_subjects = true
  /\ _current_session (self connected) = None
  /\ _driver (self connected) = Some 0
  /\ driver_session backend 0 (world connected) = (inr 0, world with_session)
  /\ _current_session (self with_session) = Some 0
  /\ (exists q p,
        self (snd (invoke backend all_subjects connected))
        = {| _driver := Some 0; _current_session := Some 0 |}
        /\ new_events connected (snd (invoke backend all_subjects connected))
           = [EvSession 0; EvRun 0 q p])
  /\ (exists q p,
        self (snd (invoke backend all_subjects with_session))
        = self with_session
        /\ new_events with_session
                      (snd (invoke backend all_subjects with_session))
           = [EvRun 0 q p]).
Proof.
  repeat (split; [reflexivity|]). split.
  - exact (proj2 (Properties.session_is_stored_and_reused
                    backend connected all_subjects eq_refl)
                 0 0 (world with_session) eq_refl eq_refl eq_refl).
  - exact (proj1 (Properties.session_is_stored_and_reused
                    backend with_session all_subjects eq_refl)
                 0 eq_refl).
Defined.

(** C6, as stated, fails.  On a freshly connected instance the first
    data call stores the session the driver hands out; the same call
    made again asks the driver for no session and runs on the stored
    one. *)
Lemma session_is_cached :
  let first := snd (invoke backend all_subjects connected) in
  let second := snd (invoke backend all_subjects first) in
  self first <> self connected
  /\ _current_session (self connected) = None
  /\ _current_session (self first) = Some 0
  /\ new_events connected first
     = [EvSession 0; EvRun 0 "MATCH (n:OC_subject) RETURN n" []]
  /\ new_events first second
     = [EvRun 0 "MATCH (n:OC_subject) RETURN n" []]
  /\ existsb is_session_event (new_events first second) = false.
Proof.
  cbv zeta. split; [discriminate|]. repeat split; reflexivity.
Qed.

End Examples.


(* ================================================================== *)
(** ** A backend with fixed answers

    The driver hands out sessions up to a limit, then refuses, and
    answers every query alike.  It stands for a server that is down or
    goes down, or one whose answer does not depend on the query. *)
(* ================================================================== *)

Module Stub.
Import Py Neo4j.

Definition backend (limit : nat) (run_answer : string + Result)
  : Liaison.Backend :=
  {| Liaison.World := nat;
     Liaison.graph := fun _ => [];
     Liaison.propmap_holds := fun _ _ => false;
     Liaison.neo4j_driver_version := "4.1.0";
     Liaison.driver_new := fun _ _ _ w => (inr 0, w);
     Liaison.driver_session :=
       fun _ n =>
         if Nat.ltb n limit then (inr n, S n)
         else (inl "Unable to retrieve routing information", n);
     Liaison.driver_close := fun _ w => (inr tt, w);
     Liaison.session_run := fun _ _ _ w => (run_answer, w) |}.

(** The instance right after construction. *)
Definition connected (limit : nat) (run_answer : string + Result)
  : Liaison.State (backend limit run_answer) :=
  snd (Liaison.__init__ (backend limit run_answer)
                        "neo4j://localhost:7687" "neo4j" "pwd" 0 []).

Definition sampling_1 : Node :=
  {| node_identity := 20; node_labels := ["OC_sampling"];
     node_properties :=
       [("collection_location", AStr "OpenCures"); ("id", AInt 190);
        ("date_collected", AStr "27-Feb-20")] |}.
Definition sampling_2 : Node :=
  {| node_identity := 21; node_labels := ["OC_sampling"];
     node_properties :=
       [("collection_location", AStr "OpenCures"); ("id", AInt 62);
        ("date_collected", AStr "31-May-19")] |}.

End Stub.

(* ================================================================== *)
(** ** Further vocabulary *)
(* ================================================================== *)

Module Spec2.
Import Py Neo4j Liaison.

(** An event that a method of an instance with driver [d] may cause:
    a session or a close on [d], or a query. *)
Definition event_of_driver (d : DriverObj) (e : Event) : Prop :=
  match e with
  | EvDriver _ _ _ => False
  | EvSession d' => d' = d
  | EvDriverClose d' => d' = d
  | EvRun _ _ _ => True
  end.

(** A computation that only adds events allowed for the driver the
    instance holds, if any. *)
Definition talks_to_own_driver {B : Backend} {A} (m : M B A) : Prop :=
  forall (st : State B) (d : DriverObj),
    _driver (self st) = Some d ->
    exists evs, log (snd (m st)) = (log st ++ evs)%list
                /\ Forall (event_of_driver d) evs.

(** The [run] events of a list of requests on one session. *)
Definition runs_on (s : Session) (requests : list (string * Dict Atom))
  : list Event :=
  map (fun qp => EvRun s (fst qp) (snd qp)) requests.

(** The value a dictionary binds to a key, [None] when it has none. *)
Definition value_or_none (d : Dict Value) (k : string) : Value :=
  match dict_get k d with
  | Some v => v
  | None => VNone
  end.

(** The query a data operation sends: its text and its parameters. *)
Definition request_of (c : Call) : option (string * Dict Atom) :=
  match c with
  | CallRetrieveNodeByLabelAndId label id_value =>
      Some ("MATCH (n:" ++ label ++ " {id:$id}) RETURN n", [("id", id_value)])
  | CallRetrieveNodeByLabelAndClause label clause =>
      Some ("MATCH (n:" ++ label ++ ") WHERE " ++ clause ++ " RETURN n", [])
  | CallRetrieveChildren label id_value rel_name _ =>
      Some ("MATCH (n:" ++ label ++ " {id:$id})-[:" ++ rel_name
              ++ "]->(m) RETURN m",
            [("id", id_value); ("rel_name", AStr rel_name)])
  | CallQueryListSingleField _ cypher cypher_dict
  | CallQueryListMultipleFieldsDict cypher cypher_dict
  | CallQueryListMultipleFields cypher cypher_dict
  | CallRunQuery cypher cypher_dict =>
      Some (cypher, or_empty cypher_dict)
  | CallNextAvailableId label clause =>
      Some (Spec.next_id_query label clause, [])
  | CallCreateNode label items =>
      Some ("CREATE (:" ++ label ++ " {"
              ++ Spec.attribute_list (keys items) ++ "})",
            items)
  | CallChangeSingleAttributeById label node_id attribute_name
                                  new_attribute_value =>
      Some ("MATCH (n:" ++ label ++ ") WHERE n.id = $node_id SET n."
              ++ attribute_name ++ " = $new_attribute_value",
            [("node_id", node_id);
             ("new_attribute_value", new_attribute_value)])
  | _ => None
  end.

End Spec2.

(* ================================================================== *)
(** ** Further properties of the class *)
(* ================================================================== *)

Module More.
Import Py Neo4j Liaison PyFacts Neo4jFacts LiaisonFacts.

Ltac run_outcome :=
  match goal with
  | |- context [call_run ?B ?s ?q ?p ?st] =>
      exists q, p;
      destruct (call_run B s q p st) as [[?|?] ?]; simpl
  end.

(** A data call that obtains the session [s] ends in the state its one
    [run] call leaves, and raises what that call raises. *)
Lemma data_call_run (B : Backend) (c : Call) (st st1 : State B) (s : Session) :
  is_data_call c = true ->
  get_session B st = (inr s, st1) ->
  exists q p,
    snd (invoke B c st) = snd (call_run B s q p st1)
    /\ forall e, fst (call_run B s q p st1) = inl e ->
                 fst (invoke B c st) = Some e.
Proof.
  intros Hc Hs.
  destruct c; try discriminate; unfold invoke, exec.
  - unfold retrieve_node_by_label_and_id, bind, lift.
    rewrite Hs, Properties.format_by_id. run_outcome.
    + split; [reflexivity | now intros e' [= ->]].
    + destruct (result_single _); simpl;
        [destruct (value_items _); simpl|];
        (split; [reflexivity | discriminate]).
  - unfold retrieve_node_by_label_and_clause, bind, lift.
    rewrite Hs, Properties.format_by_clause. run_outcome.
    + split; [reflexivity | now intros e' [= ->]].
    + destruct (nodes_as_dicts _); simpl; (split; [reflexivity | discriminate]).
  - unfold retrieve_children, bind, lift.
    rewrite Hs, Properties.format_children. run_outcome.
    + split; [reflexivity | now intros e' [= ->]].
    + destruct (pick_m _); simpl; (split; [reflexivity | discriminate]).
  - unfold query_list_single_field, bind, ret. rewrite Hs. run_outcome.
    + split; [reflexivity | now intros e' [= ->]].
    + split; [reflexivity | discriminate].
  - unfold query_list_multiple_fields_dict, bind, ret. rewrite Hs. run_outcome.
    + split; [reflexivity | now intros e' [= ->]].
    + split; [reflexivity | discriminate].
  - unfold query_list_multiple_fields, bind, ret. rewrite Hs. run_outcome.
    + split; [reflexivity | now intros e' [= ->]].
    + split; [reflexivity | discriminate].
  - unfold next_available_id, query_list_single_field, bind, lift, ret.
    destruct (String.eqb clause ""); [|rewrite Properties.format_next_id];
      rewrite Hs; run_outcome;
      try (split; [reflexivity | now intros e' [= ->]]);
      destruct (list_getitem _ 0) as [?|[[| |]|]]; simpl;
      (split; [reflexivity | discriminate]).
  - unfold create_node, run_query, bind, lift, ret.
    rewrite Properties.format_create, Hs. run_outcome.
    + split; [reflexivity | now intros e' [= ->]].
    + split; [reflexivity | discriminate].
  - unfold change_single_attribute_by_id, run_query, bind, ret.
    rewrite Hs. run_outcome.
    + split; [reflexivity | now intros e' [= ->]].
    + split; [reflexivity | discriminate].
  - unfold run_query, bind. rewrite Hs. run_outcome.
    + split; [reflexivity | now intros e' [= ->]].
    + split; [reflexivity | discriminate].
Qed.

Ltac run_result :=
  match goal with
  | |- context [call_run ?B ?s ?q ?p ?st] =>
      destruct (call_run B s q p st) as [[?|?] ?]; simpl
  end.

(** The same, with the query named: the [run] call is made with the
    request of the operation. *)
Lemma data_call_request (B : Backend) (c : Call) (st st1 : State B)
    (s : Session) (q : string) (p : Dict Atom) :
  get_session B st = (inr s, st1) ->
  Spec2.request_of c = Some (q, p) ->
  snd (invoke B c st) = snd (call_run B s q p st1)
  /\ forall e, fst (call_run B s q p st1) = inl e ->
               fst (invoke B c st) = Some e.
Proof.
  intros Hs Hreq.
  destruct c; try discriminate; cbn [Spec2.request_of] in Hreq;
    apply (f_equal (fun o => match o with Some x => x | None => (q, p) end))
      in Hreq;
    cbv beta match in Hreq; apply pair_equal_spec in Hreq;
    destruct Hreq as [<- <-]; unfold invoke, exec.
  - unfold retrieve_node_by_label_and_id, bind, lift.
    rewrite Hs, Properties.format_by_id. run_result.
    + split; [reflexivity | now intros e' [= ->]].
    + destruct (result_single _); simpl;
        [destruct (value_items _); simpl|];
        (split; [reflexivity | discriminate]).
  - unfold retrieve_node_by_label_and_clause, bind, lift.
    rewrite Hs, Properties.format_by_clause. run_result.
    + split; [reflexivity | now intros e' [= ->]].
    + destruct (nodes_as_dicts _); simpl; (split; [reflexivity | discriminate]).
  - unfold retrieve_children, bind, lift.
    rewrite Hs, Properties.format_children. run_result.
    + split; [reflexivity | now intros e' [= ->]].
    + destruct (pick_m _); simpl; (split; [reflexivity | discriminate]).
  - unfold query_list_single_field, bind, ret. rewrite Hs. run_result.
    + split; [reflexivity | now intros e' [= ->]].
    + split; [reflexivity | discriminate].
  - unfold query_list_multiple_fields_dict, bind, ret. rewrite Hs. run_result.
    + split; [reflexivity | now intros e' [= ->]].
    + split; [reflexivity | discriminate].
  - unfold query_list_multiple_fields, bind, ret. rewrite Hs. run_result.
    + split; [reflexivity | now intros e' [= ->]].
    + split; [reflexivity | discriminate].
  - unfold next_available_id, query_list_single_field, bind, lift, ret,
      Spec.next_id_query, or_empty.
    destruct (String.eqb clause ""); [|rewrite Properties.format_next_id];
      rewrite Hs; run_result;
      try (split; [reflexivity | now intros e' [= ->]]);
      destruct (list_getitem _ 0) as [?|[[| |]|]]; simpl;
      (split; [reflexivity | discriminate]).
  - unfold create_node, run_query, bind, lift, ret, or_empty.
    rewrite Properties.format_create, Properties.join_attribute_list, Hs.
    run_result.
    + split; [reflexivity | now intros e' [= ->]].
    + split; [reflexivity | discriminate].
  - unfold change_single_attribute_by_id, run_query, bind, ret, or_empty.
    rewrite Hs. run_result.
    + split; [reflexivity | now intros e' [= ->]].
    + split; [reflexivity | discriminate].
  - unfold run_query, bind. rewrite Hs. run_result.
    + split; [reflexivity | now intros e' [= ->]].
    + split; [reflexivity | discriminate].
Qed.

(** A data call that obtains no session stops there. *)
Lemma data_call_no_session (B : Backend) (c : Call) (st st1 : State B) (e : Exn) :
  is_data_call c = true ->
  get_session B st = (inl e, st1) ->
  invoke B c st = (Some e, st1).
Proof.
  intros Hc Hs.
  destruct c; try discriminate; unfold invoke, exec.
  - unfold retrieve_node_by_label_and_id, bind. now rewrite Hs.
  - unfold retrieve_node_by_label_and_clause, bind. now rewrite Hs.
  - unfold retrieve_children, bind. now rewrite Hs.
  - unfold query_list_single_field, bind. now rewrite Hs.
  - unfold query_list_multiple_fields_dict, bind. now rewrite Hs.
  - unfold query_list_multiple_fields, bind. now rewrite Hs.
  - unfold next_available_id, query_list_single_field, bind, lift, ret.
    destruct (String.eqb clause ""); [|rewrite Properties.format_next_id];
      now rewrite Hs.
  - unfold create_node, run_query, bind, lift.
    rewrite Properties.format_create. now rewrite Hs.
  - unfold change_single_attribute_by_id, run_query, bind. now rewrite Hs.
  - unfold run_query, bind. now rewrite Hs.
Qed.

Lemma get_session_refused (B : Backend) (st : State B) (d : DriverObj)
    (msg : string) (w : World B) :
  _current_session (self st) = None ->
  _driver (self st) = Some d ->
  driver_session B d (world st) = (inl msg, w) ->
  get_session B st
  = (inl (DriverError msg),
     {| self := self st; world := w;
        log := (log st ++ [EvSession d])%list |}).
Proof.
  intros Hs Hd Hw.
  unfold get_session, new_session, bind, get_self, call_session, external.
  rewrite Hs. simpl. rewrite Hd. simpl. now rewrite Hw.
Qed.

(** X1.  [get_session] twice.  Once [get_session] has returned a
    session, calling it again returns the same session and changes
    nothing: no field, no driver call. *)
Theorem get_session_twice (B : Backend) (st st1 : State B) (s : Session) :
  get_session B st = (inr s, st1) ->
  get_session B st1 = (inr s, st1).
Proof.
  intros Hs. apply get_session_stored.
  now destruct (get_session_stores B st st1 s Hs).
Qed.

(** X2.  [new_session] replaces the stored session.  Whatever session is
    stored, when the driver hands out [s'] the method makes one
    [session()] call, returns [s'] and stores it, and every data
    operation that follows runs its query on [s']. *)
Theorem new_session_replaces (B : Backend) (st : State B) (d : DriverObj)
    (s' : Session) (w : World B) :
  _driver (self st) = Some d ->
  driver_session B d (world st) = (inr s', w) ->
  let st' := snd (new_session B st) in
  fst (new_session B st) = inr s'
  /\ self st' = {| _driver := Some d; _current_session := Some s' |}
  /\ new_events st st' = [EvSession d]
  /\ forall c, is_data_call c = true ->
               exists q p, new_events st' (snd (invoke B c st')) = [EvRun s' q p].
Proof.
  intros Hd Hw st'. subst st'.
  assert (Hnew : new_session B st
                 = (inr s',
                    {| self := {| _driver := Some d; _current_session := Some s' |};
                       world := w;
                       log := (log st ++ [EvSession d])%list |})).
  { unfold new_session, bind, get_self, call_session, external,
      set_current_session, ret.
    rewrite Hd. simpl. rewrite Hw. simpl. now rewrite Hd. }
  rewrite Hnew. simpl.
  set (st' := {| self := {| _driver := Some d; _current_session := Some s' |};
                 world := w;
                 log := (log st ++ [EvSession d])%list |}).
  assert (Hs' : _current_session (self st') = Some s') by reflexivity.
  repeat split.
  - now apply Properties.new_events_app.
  - intros c Hc.
    destruct (Properties.data_call_trace
                B c st' st' s' Hc (get_session_stored B st' s' Hs'))
      as [q [p [_ Hl]]].
    exists q, p. now apply Properties.new_events_app.
Qed.

(** X3.  No session, no query.  On an instance without a stored session
    whose driver refuses to open one, every data operation raises the
    driver's error, sends no query and stores nothing: the only driver
    call is the refused [session()], and the next call will ask again. *)
Theorem data_call_without_session (B : Backend) (st : State B) (d : DriverObj)
    (msg : string) (w : World B) (c : Call) :
  is_data_call c = true ->
  _current_session (self st) = None ->
  _driver (self st) = Some d ->
  driver_session B d (world st) = (inl msg, w) ->
  fst (invoke B c st) = Some (DriverError msg)
  /\ self (snd (invoke B c st)) = self st
  /\ new_events st (snd (invoke B c st)) = [EvSession d].
Proof.
  intros Hc Hs Hd Hw.
  rewrite (data_call_no_session B c _ _ _ Hc (get_session_refused B _ d msg w Hs Hd Hw)).
  simpl. repeat split. now apply Properties.new_events_app.
Qed.

(** X4.  Errors of the driver are passed on.  When the driver raises on
    the query a data operation sends, the operation raises that same
    error: the class catches nothing.  The operation has made its one
    [run] call, the fields are as [get_session] left them and the session
    stays stored. *)
Theorem driver_error_propagates (B : Backend) (st st1 : State B) (s : Session)
    (c : Call) (q : string) (p : Dict Atom) (msg : string) (w2 : World B) :
  get_session B st = (inr s, st1) ->
  Spec2.request_of c = Some (q, p) ->
  session_run B s q p (world st1) = (inl msg, w2) ->
  fst (invoke B c st) = Some (DriverError msg)
  /\ self (snd (invoke B c st)) = self st1
  /\ _current_session (self (snd (invoke B c st))) = Some s
  /\ new_events st1 (snd (invoke B c st)) = [EvRun s q p].
Proof.
  intros Hs Hreq Hfail.
  destruct (data_call_request B c st st1 s q p Hs Hreq) as [Hst Herr].
  assert (Hrun : call_run B s q p st1
                 = (inl (DriverError msg),
                    {| self := self st1; world := w2;
                       log := (log st1 ++ [EvRun s q p])%list |})).
  { unfold call_run, external. now rewrite Hfail. }
  rewrite Hrun in Hst, Herr. simpl in *.
  split; [now apply Herr|]. rewrite Hst. simpl.
  split; [reflexivity|]. split.
  - now destruct (get_session_stores B st st1 s Hs).
  - now apply Properties.new_events_app.
Qed.

(** X5.  [next_available_id] never returns [None]: a [None] that comes
    back from the query is replaced by 1. *)
Theorem next_available_id_not_none (B : Backend) (label clause : string)
    (st : State B) :
  fst (next_available_id B label clause st) <> inr VNone.
Proof.
  unfold next_available_id, query_list_single_field, bind, lift, ret.
  destruct (String.eqb clause ""); [|rewrite Properties.format_next_id];
    (destruct (get_session B st) as [[e|s] st1]; [discriminate|];
     destruct (call_run B s _ _ st1) as [[e|res] st2]; [discriminate|];
     simpl; destruct (list_getitem _ 0) as [e|[[| |]|]]; simpl; discriminate).
Qed.

(** *** The children of a node *)

Lemma keys_map_snd {V W} (f : V -> W) (d : Dict V) :
  keys (map (fun kv => (fst kv, f (snd kv))) d) = keys d.
Proof.
  unfold keys. rewrite map_map. reflexivity.
Qed.

Lemma dict_get_map_snd {V W} (f : V -> W) (k : string) (d : Dict V) :
  dict_get k (map (fun kv => (fst kv, f (snd kv))) d)
  = option_map f (dict_get k d).
Proof.
  induction d as [|[k' v] d IH]; simpl; [reflexivity|].
  destruct (String.eqb k k'); auto.
Qed.

(** [record.data()["m"]] for a record with distinct field names. *)
Lemma data_get_m (r : DbRecord) :
  wf r ->
  dict_get "m" (dict_of_items (map (fun kv => (fst kv, datum_of_value (snd kv))) r))
  = option_map datum_of_value (dict_get "m" r).
Proof.
  intros Hwf. rewrite dict_of_items_wf.
  - apply dict_get_map_snd.
  - unfold wf. now rewrite keys_map_snd.
Qed.

Lemma pick_m_nodes (records : list DbRecord) (nodes : list Node) :
  Forall (fun r : DbRecord => wf r) records ->
  Forall2 (fun r n => dict_get "m" r = Some (VNode n)) records nodes ->
  Forall (fun n => wf (node_properties n)) nodes ->
  pick_m (result_data records)
  = inr (map (fun n => DDict (node_properties n)) nodes).
Proof.
  intros Hwf Hnodes. revert Hwf.
  induction Hnodes as [|r n records nodes Hr _ IH]; intros Hwf Hprops; simpl.
  - reflexivity.
  - inversion Hwf as [|? ? Hwr Hwrest]; subst.
    inversion Hprops as [|? ? Hpn Hprest]; subst.
    rewrite (data_get_m r Hwr), Hr. simpl.
    rewrite (IH Hwrest Hprest).
    unfold node_items. now rewrite dict_of_items_wf.
Qed.

Lemma pick_m_missing (records : list DbRecord) :
  Forall (fun r : DbRecord => wf r) records ->
  Exists (fun r => dict_get "m" r = None) records ->
  pick_m (result_data records) = inl (KeyError "m").
Proof.
  intros Hwf Hex. induction records as [|r records IH]; simpl.
  - inversion Hex.
  - inversion Hwf as [|? ? Hwr Hwrest]; subst.
    rewrite (data_get_m r Hwr).
    destruct (dict_get "m" r) as [v|] eqn:Hm; simpl; [|reflexivity].
    inversion Hex as [? ? Hnone | ? ? Hrest]; subst; [congruence|].
    now rewrite (IH Hwrest Hrest).
Qed.

(** X6.  [retrieve_children].  With a session at hand and the driver
    returning records with distinct field names for the query: when each
    record binds [m] to a node, the method returns, in the order of the
    records, the dictionary of the properties of each node; when some
    record has no field [m], it raises [KeyError]. *)
Theorem retrieve_children_spec (B : Backend) (st st1 : State B)
    (sess : Session) (label : string) (id_value : Atom)
    (rel_name order : string) (records : list DbRecord) (w2 : World B) :
  get_session B st = (inr sess, st1) ->
  session_run B sess
              ("MATCH (n:" ++ label ++ " {id:$id})-[:" ++ rel_name
                 ++ "]->(m) RETURN m")
              [("id", id_value); ("rel_name", AStr rel_name)] (world st1)
  = (inr records, w2) ->
  Forall (fun r : DbRecord => wf r) records ->
  (forall nodes,
      Forall2 (fun r n => dict_get "m" r = Some (VNode n)) records nodes ->
      Forall (fun n => wf (node_properties n)) nodes ->
      fst (retrieve_children B label id_value rel_name order st)
      = inr (map (fun n => DDict (node_properties n)) nodes))
  /\ (Exists (fun r => dict_get "m" r = None) records ->
      fst (retrieve_children B label id_value rel_name order st)
      = inl (KeyError "m")).
Proof.
  intros Hs Hrun Hwf.
  assert (Hret : fst (retrieve_children B label id_value rel_name order st)
                 = pick_m (result_data records)).
  { unfold retrieve_children, bind, lift.
    now rewrite Hs, Properties.format_children, (call_run_eq B _ _ _ _ _ _ Hrun). }
  rewrite Hret. split.
  - intros nodes Hnodes Hprops. now apply pick_m_nodes.
  - intros Hex. now apply pick_m_missing.
Qed.

(** *** Sequences of calls *)

Lemma invoke_keeps_session (B : Backend) (c : Call) (st : State B) (s : Session) :
  _current_session (self st) = Some s ->
  exists s', _current_session (self (snd (invoke B c st))) = Some s'
             /\ (c <> CallNewSession -> s' = s).
Proof.
  intros Hs.
  destruct (is_data_call c) eqn:Hc.
  - destruct (Properties.data_call_trace
                B c st st s Hc (get_session_stored B st s Hs))
      as [q [p [Hf _]]].
    exists s. rewrite Hf. auto.
  - destruct c; try discriminate; unfold invoke; rewrite Properties.snd_exec.
    + exists s. auto.
    + exists s. destruct (Properties.close_frame B st) as [Hf _].
      rewrite Hf. auto.
    + unfold new_session, bind, get_self, call_session, external,
        set_current_session, ret, raise.
      destruct (_driver (self st)) as [d|]; simpl.
      * destruct (driver_session B d (world st)) as [[msg|s1] w]; simpl.
        -- exists s. auto.
        -- exists s1. split; [reflexivity | congruence].
      * exists s. auto.
    + rewrite (get_session_stored B st s Hs). exists s. auto.
    + unfold query_NOT_IN_USE, bind, get_self, ret, raise.
      destruct (_driver (self st)); simpl; exists s; auto.
Qed.

(** X7.  A stored session is never cleared.  Once an instance holds a
    session, it holds one after any sequence of calls, [close] included,
    whether the calls return or raise; and it is the same session unless
    [new_session] was among the calls. *)
Theorem session_stays_stored (B : Backend) (calls : list Call) (st : State B)
    (s : Session) :
  _current_session (self st) = Some s ->
  exists s', _current_session (self (invoke_all B calls st)) = Some s'
             /\ (~ In CallNewSession calls -> s' = s).
Proof.
  revert st s. induction calls as [|c calls IH]; intros st s Hs; simpl.
  - exists s. auto.
  - destruct (invoke_keeps_session B c st s Hs) as [s1 [Hs1 Hsame1]].
    destruct (IH _ s1 Hs1) as [s2 [Hs2 Hsame2]].
    exists s2. split; [assumption|].
    intros Hnot.
    assert (Hc : c <> CallNewSession) by (intros ->; apply Hnot; now left).
    assert (Hrest : ~ In CallNewSession calls)
      by (intros Hin; apply Hnot; now right).
    now rewrite (Hsame2 Hrest), (Hsame1 Hc).
Qed.

(** X8.  One query per call.  On an instance that holds a session, any
    sequence of data operations leaves the fields as they are and makes
    exactly one [run] call per operation, each on the stored session, and
    no other driver call. *)
Theorem one_run_per_data_call (B : Backend) (calls : list Call) (st : State B)
    (s : Session) :
  _current_session (self st) = Some s ->
  forallb is_data_call calls = true ->
  self (invoke_all B calls st) = self st
  /\ exists requests,
      List.length requests = List.length calls
      /\ new_events st (invoke_all B calls st) = Spec2.runs_on s requests.
Proof.
  intros Hs Hcalls.
  assert (H : self (invoke_all B calls st) = self st
              /\ exists requests,
                  List.length requests = List.length calls
                  /\ log (invoke_all B calls st)
                     = (log st ++ Spec2.runs_on s requests)%list).
  { revert st Hs. induction calls as [|c calls IH]; intros st Hs; simpl.
    - split; [reflexivity|]. exists []. simpl. now rewrite app_nil_r.
    - simpl in Hcalls. apply andb_true_iff in Hcalls. destruct Hcalls as [Hc Hrest].
      destruct (Properties.data_call_trace
                  B c st st s Hc (get_session_stored B st s Hs))
        as [q [p [Hf Hl]]].
      assert (Hs1 : _current_session (self (snd (invoke B c st))) = Some s)
        by now rewrite Hf.
      destruct (IH Hrest _ Hs1) as [Hself [requests [Hlen Hlog]]].
      split; [now rewrite Hself|].
      exists ((q, p) :: requests). split; [simpl; now rewrite Hlen|].
      rewrite Hlog, Hl. simpl. now rewrite <- app_assoc. }
  destruct H as [Hself [requests [Hlen Hlog]]].
  split; [assumption|]. exists requests. split; [assumption|].
  now apply Properties.new_events_app.
Qed.

(** *** The three ways to read a result *)

(** X9.  The three query methods agree.  With a session at hand and the
    driver returning the same records with distinct field names, the
    tuples of [query_list_multiple_fields] are the values of the
    dictionaries of [query_list_multiple_fields_dict], record by record,
    and the list of [query_list_single_field] holds what each of these
    dictionaries binds to the field, [None] where it binds nothing. *)
Theorem query_methods_agree (B : Backend) (st st1 : State B) (sess : Session)
    (cypher : string) (cypher_dict : option (Dict Atom))
    (records : list DbRecord) (w2 : World B) :
  get_session B st = (inr sess, st1) ->
  session_run B sess cypher (or_empty cypher_dict) (world st1)
  = (inr records, w2) ->
  Forall (fun r : DbRecord => wf r) records ->
  exists ds,
    fst (query_list_multiple_fields_dict B cypher cypher_dict st) = inr ds
    /\ fst (query_list_multiple_fields B cypher cypher_dict st)
       = inr (map values ds)
    /\ forall field_name,
        fst (query_list_single_field B field_name cypher cypher_dict st)
        = inr (map (fun d => Spec2.value_or_none d field_name) ds).
Proof.
  intros Hs Hrun Hwf. exists (map dict_of_record records).
  unfold query_list_multiple_fields_dict, query_list_multiple_fields,
    query_list_single_field, bind, ret.
  rewrite Hs, (call_run_eq B _ _ _ _ _ _ Hrun). simpl.
  rewrite Forall_forall in Hwf. repeat split.
  - f_equal. rewrite map_map. apply map_ext_in. intros r Hin.
    now rewrite (dict_of_record_wf r (Hwf r Hin)).
  - intros field_name. f_equal. unfold result_value. rewrite map_map.
    apply map_ext_in. intros r Hin. unfold Spec2.value_or_none.
    now rewrite (dict_of_record_wf r (Hwf r Hin)), record_value_dict_get.
Qed.

(** *** The driver an instance talks to *)

Section OwnDriver.
Variable B : Backend.

Lemma talks_silent {A} (m : M B A) :
  (forall st, log (snd (m st)) = log st) -> Spec2.talks_to_own_driver m.
Proof.
  intros H st d _. exists []. rewrite H, app_nil_r. auto.
Qed.

Lemma talks_ret {A} (a : A) : Spec2.talks_to_own_driver (ret B a).
Proof. now apply talks_silent. Qed.

Lemma talks_lift {A} (r : result A) : Spec2.talks_to_own_driver (lift B r).
Proof. now apply talks_silent. Qed.

Lemma talks_call_run (s : Session) (q : string) (p : Dict Atom) :
  Spec2.talks_to_own_driver (call_run B s q p).
Proof.
  intros st d _. exists [EvRun s q p].
  destruct (call_run_log B s q p st) as [Hl _]. rewrite Hl.
  split; [reflexivity|]. repeat constructor.
Qed.

Lemma talks_bind {A C} (m : M B A) (k : A -> M B C) :
  Spec2.talks_to_own_driver m -> keeps_driver m ->
  (forall a, Spec2.talks_to_own_driver (k a)) ->
  Spec2.talks_to_own_driver (bind B m k).
Proof.
  intros Hm Hkeep Hk st d Hd. unfold bind.
  destruct (Hm st d Hd) as [evs [Hl Hevs]]. specialize (Hkeep st).
  destruct (m st) as [[e|a] st1]; simpl in *.
  - exists evs. auto.
  - rewrite Hd in Hkeep.
    destruct (Hk a st1 d Hkeep) as [evs' [Hl' Hevs']].
    exists (evs ++ evs')%list. rewrite Hl', Hl, app_assoc.
    split; [reflexivity|]. apply Forall_app. auto.
Qed.

Lemma talks_new_session : Spec2.talks_to_own_driver (new_session B).
Proof.
  intros st d Hd.
  unfold new_session, bind, get_self, call_session, external,
    set_current_session, ret.
  rewrite Hd. simpl.
  destruct (driver_session B d (world st)) as [[msg|s] w]; simpl;
    exists [EvSession d]; (split; [reflexivity|]); repeat constructor.
Qed.

Lemma talks_get_session : Spec2.talks_to_own_driver (get_session B).
Proof.
  intros st d Hd. unfold get_session, bind, get_self. simpl.
  destruct (_current_session (self st)) as [s|].
  - exists []. simpl. rewrite app_nil_r. auto.
  - exact (talks_new_session st d Hd).
Qed.

Lemma talks_close : Spec2.talks_to_own_driver (close B).
Proof.
  intros st d Hd. unfold close, bind, get_self, call_close, external.
  simpl. rewrite Hd. simpl.
  destruct (driver_close B d (world st)) as [r w]. simpl.
  exists [EvDriverClose d]. split; [reflexivity|]. repeat constructor.
Qed.

Ltac talks :=
  repeat first
    [ apply talks_ret | apply talks_lift | apply talks_call_run
    | apply talks_get_session
    | apply Properties.keeps_get_session | apply Properties.keeps_call_run
    | apply Properties.keeps_lift | apply Properties.keeps_ret
    | apply Properties.keeps_run_query
    | apply Properties.keeps_query_list_single_field
    | apply talks_bind; [ | | intros ?]
    | match goal with
      | |- Spec2.talks_to_own_driver (match ?x with _ => _ end) => destruct x
      | |- Spec2.talks_to_own_driver (if ?x then _ else _) => destruct x
      | |- keeps_driver (if ?x then _ else _) => destruct x
      end ].

Lemma talks_run_query (q : string) (d : option (Dict Atom)) :
  Spec2.talks_to_own_driver (run_query B q d).
Proof. unfold run_query. talks. Qed.

Lemma talks_query_list_single_field (f q : string) (d : option (Dict Atom)) :
  Spec2.talks_to_own_driver (query_list_single_field B f q d).
Proof. unfold query_list_single_field. talks. Qed.

(** Every method only calls the driver the instance holds. *)
Lemma invoke_talks (c : Call) (st : State B) (d : DriverObj) :
  _driver (self st) = Some d ->
  exists evs, log (snd (invoke B c st)) = (log st ++ evs)%list
              /\ Forall (Spec2.event_of_driver d) evs.
Proof.
  revert st d.
  destruct c; unfold invoke; intros st d Hd; rewrite Properties.snd_exec;
    revert st d Hd.
  - apply talks_ret.
  - apply talks_close.
  - apply talks_new_session.
  - apply talks_get_session.
  - unfold retrieve_node_by_label_and_id. talks.
  - unfold retrieve_node_by_label_and_clause. talks.
  - unfold retrieve_children. talks.
  - apply talks_query_list_single_field.
  - unfold query_list_multiple_fields_dict. talks.
  - unfold query_list_multiple_fields. talks.
  - unfold next_available_id.
    apply talks_bind; [talks | talks | intros cypher].
    apply talks_bind;
      [apply talks_query_list_single_field
      | apply Properties.keeps_query_list_single_field | intros result_list].
    talks.
  - unfold create_node.
    apply talks_bind; [talks | talks | intros cypher].
    apply talks_bind;
      [apply talks_run_query | apply Properties.keeps_run_query | intros res].
    talks.
  - unfold change_single_attribute_by_id.
    apply talks_bind;
      [apply talks_run_query | apply Properties.keeps_run_query | intros res].
    talks.
  - apply talks_run_query.
  - unfold query_NOT_IN_USE. intros st d Hd. exists [].
    unfold bind, get_self, ret. simpl. rewrite Hd. simpl.
    rewrite app_nil_r. auto.
Qed.

Lemma invoke_all_talks (calls : list Call) (st : State B) (d : DriverObj) :
  _driver (self st) = Some d ->
  exists evs, log (invoke_all B calls st) = (log st ++ evs)%list
              /\ Forall (Spec2.event_of_driver d) evs.
Proof.
  revert st. induction calls as [|c calls IH]; intros st Hd; simpl.
  - exists []. rewrite app_nil_r. auto.
  - destruct (invoke_talks c st d Hd) as [evs [Hl Hevs]].
    assert (Hd1 : _driver (self (snd (invoke B c st))) = Some d)
      by now rewrite Properties.invoke_keeps_driver.
    destruct (IH _ Hd1) as [evs' [Hl' Hevs']].
    exists (evs ++ evs')%list. rewrite Hl', Hl, app_assoc.
    split; [reflexivity|]. apply Forall_app. auto.
Qed.

End OwnDriver.

(** X10.  One driver per instance.  A constructor that did not raise
    made one driver call, the creation of the driver, and opened no
    session.  Whatever methods are called afterwards, no other driver is
    created, and every session that is opened and every [close] goes to
    the driver the constructor created. *)
Theorem one_driver_per_instance (B : Backend) (url user pwd : string)
    (w : World B) (lg : list Event) (st : State B) (calls : list Call) :
  __init__ B url user pwd w lg = (inr tt, st) ->
  exists d,
    self st = {| _driver := Some d; _current_session := None |}
    /\ log st = (lg ++ [EvDriver url user pwd])%list
    /\ Forall (Spec2.event_of_driver d)
              (new_events st (invoke_all B calls st)).
Proof.
  intros Hinit. unfold __init__ in Hinit.
  destruct (driver_new B url user pwd w) as [[msg|d] w']; [discriminate|].
  injection Hinit as <-. exists d. simpl. repeat split.
  match goal with
  | |- Forall _ (new_events ?st0 _) =>
      destruct (invoke_all_talks B calls st0 d eq_refl) as [evs [Hl Hevs]]
  end.
  now rewrite (Properties.new_events_app B _ _ evs Hl).
Qed.

(** X11.  A refused [new_session] changes nothing.  When the driver
    refuses to open a session, [new_session] raises the driver's error and
    assigns no field; a session stored before is still there, and the
    data operations that follow run on it. *)
Theorem failed_new_session_keeps_session (B : Backend) (st : State B)
    (d : DriverObj) (msg : string) (w : World B) :
  _driver (self st) = Some d ->
  driver_session B d (world st) = (inl msg, w) ->
  let st' := snd (new_session B st) in
  fst (new_session B st) = inl (DriverError msg)
  /\ self st' = self st
  /\ new_events st st' = [EvSession d]
  /\ forall s c,
      _current_session (self st) = Some s ->
      is_data_call c = true ->
      exists q p, new_events st' (snd (invoke B c st')) = [EvRun s q p].
Proof.
  intros Hd Hw st'. subst st'.
  assert (Hnew : new_session B st
                 = (inl (DriverError msg),
                    {| self := self st; world := w;
                       log := (log st ++ [EvSession d])%list |})).
  { unfold new_session, bind, get_self, call_session, external.
    rewrite Hd. simpl. now rewrite Hw. }
  rewrite Hnew. simpl.
  set (st' := {| self := self st; world := w;
                 log := (log st ++ [EvSession d])%list |}).
  repeat split.
  - now apply Properties.new_events_app.
  - intros s c Hs Hc.
    assert (Hs' : _current_session (self st') = Some s) by exact Hs.
    destruct (Properties.data_call_trace
                B c st' st' s Hc (get_session_stored B st' s Hs'))
      as [q [p [_ Hl]]].
    exists q, p. now apply Properties.new_events_app.
Qed.

End More.

(* ================================================================== *)
(** ** The further properties on the two backends *)
(* ================================================================== *)

Module MoreExamples.
Import Py Neo4j Liaison PyFacts.

Definition subjects : Call := CallRunQuery "MATCH (n:OC_subject) RETURN n" None.

(** The in-memory instance holding the session 0. *)
Definition ready : State MemDriver.backend :=
  snd (get_session MemDriver.backend MemDriver.connected).

(** The same instance after [close]. *)
Definition closed : State MemDriver.backend :=
  snd (close MemDriver.backend ready).

(** An instance whose driver hands out one session and no more, holding
    that session. *)
Definition last_session : State (Stub.backend 1 (inr [])) :=
  snd (get_session (Stub.backend 1 (inr [])) (Stub.connected 1 (inr []))).

Definition children_records : list DbRecord :=
  Cypher.return_nodes "m" [Stub.sampling_1; Stub.sampling_2].

Definition name_records : list DbRecord :=
  [[("cls", VAtom (AStr "fatty acid")); ("sub", VAtom (AStr "lipid"))];
   [("cls", VAtom (AStr "ultra long chain fatty acid")); ("sub", VAtom (AStr "lipid"))]].

(** A first [get_session] and a second one. *)
Lemma get_session_twice_witness :
  get_session MemDriver.backend MemDriver.connected = (inr 0, ready)
  /\ get_session MemDriver.backend ready = (inr 0, ready).
Proof.
  split; [reflexivity|].
  exact (More.get_session_twice MemDriver.backend MemDriver.connected ready 0
                                eq_refl).
Defined.

(** A second session replaces the first. *)
Lemma new_session_replaces_witness :
  _driver (self ready) = Some 0
  /\ driver_session MemDriver.backend 0 (world ready)
     = (inr 1, snd (MemDriver.mem_driver_session 0 (world ready)))
  /\ fst (new_session MemDriver.backend ready) = inr 1
  /\ exists q p,
      new_events (snd (new_session MemDriver.backend ready))
                 (snd (invoke MemDriver.backend subjects
                              (snd (new_session MemDriver.backend ready))))
      = [EvRun 1 q p].
Proof.
  pose proof (More.new_session_replaces
                MemDriver.backend ready 0 1
                (snd (MemDriver.mem_driver_session 0 (world ready)))
                eq_refl eq_refl) as [H1 [_ [_ H4]]].
  split; [reflexivity|]. split; [reflexivity|]. split; [exact H1|].
  exact (H4 subjects eq_refl).
Defined.

(** A server that is down from the start. *)
Lemma data_call_without_session_witness :
  is_data_call subjects = true
  /\ _current_session (self (Stub.connected 0 (inr []))) = None
  /\ _driver (self (Stub.connected 0 (inr []))) = Some 0
  /\ driver_session (Stub.backend 0 (inr [])) 0
                    (world (Stub.connected 0 (inr [])))
     = (inl "Unable to retrieve routing information", 0)
  /\ fst (invoke (Stub.backend 0 (inr [])) subjects (Stub.connected 0 (inr [])))
     = Some (DriverError "Unable to retrieve routing information").
Proof.
  split; [reflexivity|]. split; [reflexivity|]. split; [reflexivity|].
  split; [reflexivity|].
  exact (proj1 (More.data_call_without_session
                  (Stub.backend 0 (inr [])) (Stub.connected 0 (inr [])) 0
                  "Unable to retrieve routing information" 0 subjects
                  eq_refl eq_refl eq_refl eq_refl)).
Defined.

(** A lookup whose label the server cannot read. *)
Lemma driver_error_propagates_witness :
  get_session MemDriver.backend MemDriver.connected = (inr 0, ready)
  /\ Spec2.request_of (CallRetrieveNodeByLabelAndId "My-Label" (AInt 49))
     = Some ("MATCH (n:My-Label {id:$id}) RETURN n", [("id", AInt 49)])
  /\ session_run MemDriver.backend 0 "MATCH (n:My-Label {id:$id}) RETURN n"
                 [("id", AInt 49)] (world ready)
     = (inl "invalid or unsupported query", world ready)
  /\ fst (invoke MemDriver.backend
                 (CallRetrieveNodeByLabelAndId "My-Label" (AInt 49))
                 MemDriver.connected)
     = Some (DriverError "invalid or unsupported query").
Proof.
  split; [reflexivity|]. split; [reflexivity|]. split; [reflexivity|].
  exact (proj1 (More.driver_error_propagates
                  MemDriver.backend MemDriver.connected ready 0
                  (CallRetrieveNodeByLabelAndId "My-Label" (AInt 49))
                  "MATCH (n:My-Label {id:$id}) RETURN n" [("id", AInt 49)]
                  "invalid or unsupported query" (world ready)
                  eq_refl eq_refl eq_refl)).
Defined.

(** Two children of a subject. *)
Lemma retrieve_children_spec_witness :
  get_session (Stub.backend 1 (inr children_records))
              (Stub.connected 1 (inr children_records))
  = (inr 0, snd (get_session (Stub.backend 1 (inr children_records))
                             (Stub.connected 1 (inr children_records))))
  /\ Forall (fun r : DbRecord => wf r) children_records
  /\ Forall2 (fun r n => dict_get "m" r = Some (VNode n))
             children_records [Stub.sampling_1; Stub.sampling_2]
  /\ Forall (fun n => wf (node_properties n)) [Stub.sampling_1; Stub.sampling_2]
  /\ fst (retrieve_children (Stub.backend 1 (inr children_records))
                            "OC_subject" (AInt 49) "HAS_SAMPLING" ""
                            (Stub.connected 1 (inr children_records)))
     = inr [DDict (node_properties Stub.sampling_1);
            DDict (node_properties Stub.sampling_2)].
Proof.
  assert (Hrec : Forall (fun r : DbRecord => wf r) children_records).
  { repeat (apply Forall_cons; [apply wfb_wf; reflexivity|]). apply Forall_nil. }
  assert (Hm : Forall2 (fun r n => dict_get "m" r = Some (VNode n))
                       children_records [Stub.sampling_1; Stub.sampling_2]).
  { repeat (apply Forall2_cons; [reflexivity|]). apply Forall2_nil. }
  assert (Hprops : Forall (fun n => wf (node_properties n))
                          [Stub.sampling_1; Stub.sampling_2]).
  { repeat (apply Forall_cons; [apply wfb_wf; reflexivity|]). apply Forall_nil. }
  split; [reflexivity|]. split; [exact Hrec|]. split; [exact Hm|].
  split; [exact Hprops|].
  exact (proj1 (More.retrieve_children_spec
                  (Stub.backend 1 (inr children_records))
                  (Stub.connected 1 (inr children_records)) _ 0
                  "OC_subject" (AInt 49) "HAS_SAMPLING" ""
                  children_records 1 eq_refl eq_refl Hrec)
               [Stub.sampling_1; Stub.sampling_2] Hm Hprops).
Defined.

(** Calls around a [close], without [new_session]. *)
Lemma session_stays_stored_witness :
  _current_session (self ready) = Some 0
  /\ exists s',
      _current_session
        (self (invoke_all MemDriver.backend
                          [subjects; CallClose; subjects; CallGetSession] ready))
      = Some s'
      /\ (~ In CallNewSession [subjects; CallClose; subjects; CallGetSession] ->
          s' = 0).
Proof.
  split; [reflexivity|].
  exact (More.session_stays_stored
           MemDriver.backend [subjects; CallClose; subjects; CallGetSession]
           ready 0 eq_refl).
Defined.

(** Three data operations in a row. *)
Lemma one_run_per_data_call_witness :
  _current_session (self ready) = Some 0
  /\ forallb is_data_call
             [subjects; CallNextAvailableId "OC_subject" "";
              CallRetrieveNodeByLabelAndId "OC_subject" (AInt 49)] = true
  /\ exists requests,
      List.length requests = 3
      /\ new_events ready
                    (invoke_all MemDriver.backend
                                [subjects; CallNextAvailableId "OC_subject" "";
                                 CallRetrieveNodeByLabelAndId "OC_subject" (AInt 49)]
                                ready)
         = Spec2.runs_on 0 requests.
Proof.
  split; [reflexivity|]. split; [reflexivity|].
  exact (proj2 (More.one_run_per_data_call
                  MemDriver.backend
                  [subjects; CallNextAvailableId "OC_subject" "";
                   CallRetrieveNodeByLabelAndId "OC_subject" (AInt 49)]
                  ready 0 eq_refl eq_refl)).
Defined.

(** Two records read in the three ways. *)
Lemma query_methods_agree_witness :
  get_session (Stub.backend 1 (inr name_records))
              (Stub.connected 1 (inr name_records))
  = (inr 0, snd (get_session (Stub.backend 1 (inr name_records))
                             (Stub.connected 1 (inr name_records))))
  /\ Forall (fun r : DbRecord => wf r) name_records
  /\ exists ds,
      fst (query_list_multiple_fields_dict
             (Stub.backend 1 (inr name_records)) "RETURN ..." None
             (Stub.connected 1 (inr name_records))) = inr ds
      /\ fst (query_list_multiple_fields
                (Stub.backend 1 (inr name_records)) "RETURN ..." None
                (Stub.connected 1 (inr name_records)))
         = inr (map values ds)
      /\ forall field_name,
          fst (query_list_single_field
                 (Stub.backend 1 (inr name_records)) field_name "RETURN ..." None
                 (Stub.connected 1 (inr name_records)))
          = inr (map (fun d => Spec2.value_or_none d field_name) ds).
Proof.
  assert (Hrec : Forall (fun r : DbRecord => wf r) name_records).
  { repeat (apply Forall_cons; [apply wfb_wf; reflexivity|]). apply Forall_nil. }
  split; [reflexivity|]. split; [exact Hrec|].
  exact (More.query_methods_agree
           (Stub.backend 1 (inr name_records))
           (Stub.connected 1 (inr name_records)) _ 0 "RETURN ..." None
           name_records 1 eq_refl eq_refl Hrec).
Defined.

(** The in-memory instance and a few calls. *)
Lemma one_driver_per_instance_witness :
  __init__ MemDriver.backend "neo4j://localhost:7687" "neo4j" "pwd"
           MemDriver.sample_world []
  = (inr tt, MemDriver.connected)
  /\ exists d,
      self MemDriver.connected = {| _driver := Some d; _current_session := None |}
      /\ log MemDriver.connected
         = [EvDriver "neo4j://localhost:7687" "neo4j" "pwd"]
      /\ Forall (Spec2.event_of_driver d)
                (new_events MemDriver.connected
                            (invoke_all MemDriver.backend
                                        [subjects; CallNewSession; CallClose]
                                        MemDriver.connected)).
Proof.
  split; [reflexivity|].
  exact (More.one_driver_per_instance
           MemDriver.backend "neo4j://localhost:7687" "neo4j" "pwd"
           MemDriver.sample_world [] MemDriver.connected
           [subjects; CallNewSession; CallClose] eq_refl).
Defined.

(** The driver refuses a second session; the first is still used. *)
Lemma failed_new_session_keeps_session_witness :
  _driver (self last_session) = Some 0
  /\ driver_session (Stub.backend 1 (inr [])) 0 (world last_session)
     = (inl "Unable to retrieve routing information", 1)
  /\ _current_session (self last_session) = Some 0
  /\ fst (new_session (Stub.backend 1 (inr [])) last_session)
     = inl (DriverError "Unable to retrieve routing information")
  /\ exists q p,
      new_events (snd (new_session (Stub.backend 1 (inr [])) last_session))
                 (snd (invoke (Stub.backend 1 (inr [])) subjects
                              (snd (new_session (Stub.backend 1 (inr []))
                                                last_session))))
      = [EvRun 0 q p].
Proof.
  pose proof (More.failed_new_session_keeps_session
                (Stub.backend 1 (inr [])) last_session 0
                "Unable to retrieve routing information" 1 eq_refl eq_refl)
    as [H1 [_ [_ H4]]].
  split; [reflexivity|]. split; [reflexivity|]. split; [reflexivity|].
  split; [exact H1|].
  exact (H4 0 subjects eq_refl eq_refl).
Defined.

End MoreExamples.


(* ================================================================== *)
(** ** Reading the query text

    The label, the clause and the attribute name reach the server as
    part of the query text.  What the server does with them is what its
    reader makes of the text.  This part fixes a reader, the one of
    [MemDriver], says when a backend reads queries as it does, and which
    strings it reads as a single name. *)
(* ================================================================== *)

Module Reader.
Import Py Neo4j Liaison MemDriver.











End Reader.

(* ================================================================== *)
(** ** Facts about the reader *)
(* ================================================================== *)

Module ReaderFacts.
Import Py Neo4j Liaison MemDriver Reader.
























(** *** What the parsed queries select *)







End ReaderFacts.

(* ================================================================== *)
(** ** Lookup, next id and update on a server that reads the text *)
(* ================================================================== *)

Module Refined.
Import Py Neo4j Liaison MemDriver Reader PyFacts LiaisonFacts ReaderFacts.





End Refined.

(* ================================================================== *)
(** ** The in-memory server reading the text *)
(* ================================================================== *)

Module RefinedExamples.
Import Py Neo4j Liaison MemDriver Reader PyFacts ReaderFacts.

(** The in-memory instance holding the session 0. *)
Definition ready : State MemDriver.backend :=
  snd (get_session MemDriver.backend connected).








End RefinedExamples.
